(** * Image generator / combiner front end (index.tsx): a shallow embedding

    The page script keeps two state variables ([activeTab], [images]) and a
    handful of DOM elements, and reacts to user events: tab clicks, file
    uploads, the add-image button and the primary action button.  The primary
    action ([performGeneration]) validates the inputs, calls one of two remote
    operations and turns the outcome into status and output state.

    The model below follows index.tsx function by function.  JavaScript
    strings are byte strings holding UTF-8 text; the DOM elements the script
    touches are fields of a record; the external world (process configuration,
    the host's key-selection dialog, the remote service) is a record of
    oracles; an async function is a computation in a small monad with state,
    an effect trace and JavaScript completions (normal or thrown). *)

From Stdlib Require Import String Ascii NArith Bool Arith Lia.
From stdpp Require Import base list strings.

Local Open Scope string_scope.
Local Open Scope list_scope.

(** ** JavaScript string built-ins used by the script *)

Module Js.

(** The double-quote character, for the markup written to [innerHTML]. *)
Definition dquote : string := String (ascii_of_nat 34) EmptyString.

(** [needle] occurs at the very start of [s]. *)
Fixpoint startsWith (needle s : string) : bool :=
  match needle, s with
  | EmptyString, _ => true
  | String a needle', String b s' => Ascii.eqb a b && startsWith needle' s'
  | String _ _, EmptyString => false
  end.

(** [String.prototype.includes]: [needle] occurs somewhere in [s]. *)
Fixpoint includes (s needle : string) : bool :=
  startsWith needle s ||
  match s with
  | EmptyString => false
  | String _ s' => includes s' needle
  end.

(** Lower-casing of one byte: the ASCII capitals map to their small
    letters, every other byte (in particular every byte of a multi-byte
    UTF-8 sequence) is kept. *)
Definition lowerAscii (c : ascii) : ascii :=
  let n := N_of_ascii c in
  if (65 <=? n)%N && (n <=? 90)%N then ascii_of_N (n + 32) else c.

(** [String.prototype.toLowerCase], on the ASCII letters.  The script only
    searches the result for an ASCII phrase, and no character outside ASCII
    lower-cases to a text that contains those letters in sequence, so the
    restriction does not change any search result. *)
Fixpoint toLowerCase (s : string) : string :=
  match s with
  | EmptyString => EmptyString
  | String c s' => String (lowerAscii c) (toLowerCase s')
  end.

(** The characters [trim] removes (ECMAScript WhiteSpace and
    LineTerminator), by their UTF-8 encodings: one byte for TAB, LF, VT,
    FF, CR and SPACE; two bytes for U+00A0; three bytes for U+1680,
    U+2000..U+200A, U+2028, U+2029, U+202F, U+205F, U+3000 and U+FEFF. *)
Definition ws1 (a : ascii) : bool :=
  let a := N_of_ascii a in
  ((9 <=? a) && (a <=? 13) || (a =? 32))%N.

Definition ws2 (a b : ascii) : bool :=
  let a := N_of_ascii a in
  let b := N_of_ascii b in
  ((a =? 194) && (b =? 160))%N.

Definition ws3 (a b c : ascii) : bool :=
  let a := N_of_ascii a in
  let b := N_of_ascii b in
  let c := N_of_ascii c in
  ((a =? 225) && (b =? 154) && (c =? 128)
   || (a =? 226) && (b =? 128)
      && ((128 <=? c) && (c <=? 138) || (c =? 168) || (c =? 169) || (c =? 175))
   || (a =? 226) && (b =? 129) && (c =? 159)
   || (a =? 227) && (b =? 128) && (c =? 128)
   || (a =? 239) && (b =? 187) && (c =? 191))%N.

(** Removes the white space at the front of [s].  With [backwards] the
    bytes of each character are expected last byte first, which is how they
    come when the string has been reversed. *)
Fixpoint stripFront (backwards : bool) (s : string) : string :=
  match s with
  | EmptyString => s
  | String a r1 =>
      if ws1 a then stripFront backwards r1
      else
        match r1 with
        | EmptyString => s
        | String b r2 =>
            if (if backwards then ws2 b a else ws2 a b)
            then stripFront backwards r2
            else
              match r2 with
              | EmptyString => s
              | String c r3 =>
                  if (if backwards then ws3 c b a else ws3 a b c)
                  then stripFront backwards r3
                  else s
              end
        end
  end.

Definition trimStart (s : string) : string := stripFront false s.

Definition trimEnd (s : string) : string :=
  String.rev (stripFront true (String.rev s)).

(** [String.prototype.trim]. *)
Definition trim (s : string) : string := trimEnd (trimStart s).

(** A string made of white-space characters only (the empty string
    included). *)
Inductive WhiteSpaceOnly : string -> Prop :=
| wso_empty : WhiteSpaceOnly EmptyString
| wso_one a s :
    ws1 a = true -> WhiteSpaceOnly s -> WhiteSpaceOnly (String a s)
| wso_two a b s :
    ws2 a b = true -> WhiteSpaceOnly s ->
    WhiteSpaceOnly (String a (String b s))
| wso_three a b c s :
    ws3 a b c = true -> WhiteSpaceOnly s ->
    WhiteSpaceOnly (String a (String b (String c s))).

End Js.

(** [needle] occurs in [s]: [s] is some text, [needle], and some text. *)
Definition contains (s needle : string) : Prop :=
  exists before after, s = before +:+ needle +:+ after.

(** [needle] occurs in [s] up to the case of ASCII letters: some piece of
    [s] lower-cases to [needle]. *)
Definition containsIgnoringCase (s needle : string) : Prop :=
  exists piece, contains s piece /\ Js.toLowerCase piece = needle.


(** ** Data model *)

(** [let activeTab: 'generate' | 'combine'] *)
Inductive Tab := generate | combine.

(** [interface ImageData] *)
Record ImageData := { base64 : string; mimeType : string }.

(** What a JavaScript [throw] or a rejected promise carries: an [Error]
    object with its message, or some value that is no [Error]. *)
Inductive JsThrown :=
| ErrorObject (message : string)
| OtherValue (shown : string).

(** How a call ends. *)
Inductive Completion (A : Type) :=
| Normal (a : A)
| Throw (e : JsThrown).
Arguments Normal {A} a.
Arguments Throw {A} e.

(** *** The remote service's requests and responses *)

(** Modelled from the spec: the type declarations of the SDK
    ('@google/genai') are not among the sources.  A part of a multimodal
    request or response carries inline image data (a MIME type and bytes) or
    text. *)
Record Blob := { blob_mimeType : string; blob_data : string }.
Record Part := { inlineData : option Blob; text : option string }.

(** Modelled from the spec: the SDK's response type of the multimodal
    endpoint, an ordered list of candidates, each with an ordered list of
    parts ([response.candidates[0].content.parts]). *)
Record Content := { parts : list Part }.
Record Candidate := { content : Content }.
Record GenerateContentResponse := { candidates : list Candidate }.

(** Modelled from the spec: the SDK's response type of the image endpoint,
    an ordered list of generated images, each exposing its image bytes
    ([images[0].image.imageBytes]); the list itself may be undefined, as the
    script tests for it. *)
Record Image := { imageBytes : string }.
Record GeneratedImage := { image : Image }.
Record GenerateImagesResponse := { generatedImages : option (list GeneratedImage) }.

Inductive Modality := IMAGE | TEXT.
Record GenerateImagesParameters := { gi_model : string; gi_prompt : string }.
Record GenerateContentParameters := {
  gc_model : string;
  gc_parts : list Part;
  gc_responseModalities : list Modality
}.

(** *** The page *)

(** The status line holds what was last assigned to [statusEl.innerHTML] or
    to [statusEl.innerText]. *)
Inductive StatusContent :=
| innerHTML (markup : string)
| innerText (txt : string).

(** One upload area ([.image-upload-area]): the properties the script sets
    on the area, its placeholder and its preview, and the [index] its
    listeners were set up with. *)
Record UploadArea := {
  index : nat;
  pointerEvents : string;
  dragover : bool;
  placeholder_display : string;
  preview_src : string;
  preview_display : string
}.

(** The two tab controls, the two panels and the label of the primary
    action control. *)
Record View := {
  tabGenerate_className : string;
  tabCombine_className : string;
  panelGenerate_display : string;
  panelCombine_display : string;
  generateButton_textContent : string
}.

(** The [disabled] property of the four input controls. *)
Record Controls := {
  generateButton_disabled : bool;
  promptGenerateEl_disabled : bool;
  promptCombineEl_disabled : bool;
  addImageButton_disabled : bool
}.

(** The output image and the download control. *)
Record Output := {
  outputImage_src : string;
  outputImage_display : string;
  downloadButton_display : string
}.

(** The script's state variables and the DOM properties it reads or writes.
    A slot of [images] is [None] for JavaScript's [null]. *)
Record State := {
  activeTab : Tab;
  images : list (option ImageData);
  promptGenerateEl_value : string;
  promptCombineEl_value : string;
  view : View;
  controls : Controls;
  output : Output;
  statusEl : StatusContent;
  uploadAreas : list UploadArea
}.

Definition set_activeTab (t : Tab) (st : State) : State :=
  {| activeTab := t; images := images st;
     promptGenerateEl_value := promptGenerateEl_value st;
     promptCombineEl_value := promptCombineEl_value st;
     view := view st; controls := controls st; output := output st;
     statusEl := statusEl st; uploadAreas := uploadAreas st |}.

Definition set_images (l : list (option ImageData)) (st : State) : State :=
  {| activeTab := activeTab st; images := l;
     promptGenerateEl_value := promptGenerateEl_value st;
     promptCombineEl_value := promptCombineEl_value st;
     view := view st; controls := controls st; output := output st;
     statusEl := statusEl st; uploadAreas := uploadAreas st |}.

Definition set_promptGenerateEl_value (s : string) (st : State) : State :=
  {| activeTab := activeTab st; images := images st;
     promptGenerateEl_value := s;
     promptCombineEl_value := promptCombineEl_value st;
     view := view st; controls := controls st; output := output st;
     statusEl := statusEl st; uploadAreas := uploadAreas st |}.

Definition set_promptCombineEl_value (s : string) (st : State) : State :=
  {| activeTab := activeTab st; images := images st;
     promptGenerateEl_value := promptGenerateEl_value st;
     promptCombineEl_value := s;
     view := view st; controls := controls st; output := output st;
     statusEl := statusEl st; uploadAreas := uploadAreas st |}.

Definition set_view (v : View) (st : State) : State :=
  {| activeTab := activeTab st; images := images st;
     promptGenerateEl_value := promptGenerateEl_value st;
     promptCombineEl_value := promptCombineEl_value st;
     view := v; controls := controls st; output := output st;
     statusEl := statusEl st; uploadAreas := uploadAreas st |}.

Definition set_controls (c : Controls) (st : State) : State :=
  {| activeTab := activeTab st; images := images st;
     promptGenerateEl_value := promptGenerateEl_value st;
     promptCombineEl_value := promptCombineEl_value st;
     view := view st; controls := c; output := output st;
     statusEl := statusEl st; uploadAreas := uploadAreas st |}.

Definition set_output (o : Output) (st : State) : State :=
  {| activeTab := activeTab st; images := images st;
     promptGenerateEl_value := promptGenerateEl_value st;
     promptCombineEl_value := promptCombineEl_value st;
     view := view st; controls := controls st; output := o;
     statusEl := statusEl st; uploadAreas := uploadAreas st |}.

Definition set_statusEl (c : StatusContent) (st : State) : State :=
  {| activeTab := activeTab st; images := images st;
     promptGenerateEl_value := promptGenerateEl_value st;
     promptCombineEl_value := promptCombineEl_value st;
     view := view st; controls := controls st; output := output st;
     statusEl := c; uploadAreas := uploadAreas st |}.

Definition set_uploadAreas (l : list UploadArea) (st : State) : State :=
  {| activeTab := activeTab st; images := images st;
     promptGenerateEl_value := promptGenerateEl_value st;
     promptCombineEl_value := promptCombineEl_value st;
     view := view st; controls := controls st; output := output st;
     statusEl := statusEl st; uploadAreas := l |}.

(** *** The world outside the page *)

(** What one run of a handler can observe of its environment:
    [process.env.API_KEY]; [window.aistudio?.openSelectKey], absent or
    present with the way its promise settles; and the two remote operations,
    each given the credential and the request. *)
Record Env := {
  API_KEY : option string;
  openSelectKey : option (Completion unit);
  generateImages : string -> GenerateImagesParameters -> Completion GenerateImagesResponse;
  generateContent : string -> GenerateContentParameters -> Completion GenerateContentResponse
}.

(** The effects a handler has on the outside, in the order they happen;
    assignments to the status line are recorded as well. *)
Inductive Event :=
| StatusWritten (c : StatusContent)
| OpenSelectKeyCalled
| GenerateImagesCalled (apiKey : string) (request : GenerateImagesParameters)
| GenerateContentCalled (apiKey : string) (request : GenerateContentParameters)
| ConsoleError (label : string) (e : JsThrown).

(** A network call is one of the two calls to the remote service. *)
Definition isNetworkCall (ev : Event) : bool :=
  match ev with
  | GenerateImagesCalled _ _ | GenerateContentCalled _ _ => true
  | _ => false
  end.

(** ** Computations: state, trace and completions *)

Definition M (A : Type) : Type := State -> Completion A * State * list Event.

Definition ret {A} (a : A) : M A := fun st => (Normal a, st, []).

Definition bind {A B} (m : M A) (k : A -> M B) : M B :=
  fun st =>
    match m st with
    | (Normal a, st1, t1) =>
        match k a st1 with
        | (c, st2, t2) => (c, st2, t1 ++ t2)
        end
    | (Throw e, st1, t1) => (Throw e, st1, t1)
    end.

Definition throw {A} (e : JsThrown) : M A := fun st => (Throw e, st, []).

Definition emit (ev : Event) : M unit := fun st => (Normal tt, st, [ev]).

Definition modify (f : State -> State) : M unit := fun st => (Normal tt, f st, []).

Definition gets {A} (f : State -> A) : M A := fun st => (Normal (f st), st, []).

(** An awaited external promise: its settlement becomes the completion. *)
Definition await {A} (c : Completion A) : M A := fun st => (c, st, []).

(** [try { body } catch (e) { handler e } finally { cleanup }]: the cleanup
    runs after the body, or after the handler when the body threw, also when
    the handler throws in turn; the statement then completes as the body or
    the handler did, unless the cleanup itself throws. *)
Definition try_catch_finally (body : M unit) (handler : JsThrown -> M unit)
    (cleanup : M unit) : M unit :=
  fun st =>
    match body st with
    | (c1, st1, t1) =>
        match (match c1 with
               | Normal _ => (Normal tt, st1, [])
               | Throw e => handler e st1
               end) with
        | (c2, st2, t2) =>
            match cleanup st2 with
            | (c3, st3, t3) =>
                (match c3 with Normal _ => c2 | Throw e => Throw e end,
                 st3, t1 ++ t2 ++ t3)
            end
        end
    end.

Declare Scope js_scope.
Delimit Scope js_scope with js.
Notation "'let*' x := m 'in' k" := (bind m (fun x => k))
  (at level 10, x name, m at level 100, k at level 200) : js_scope.
Notation "m ;; k" := (bind m (fun _ => k))
  (at level 100, k at level 200, right associativity) : js_scope.
Local Open Scope js_scope.

(** ** The script, function by function *)

(** [!value] for a string that may be undefined: the credential counts only
    when it is present and not empty. *)
Definition truthy (value : option string) : option string :=
  match value with
  | Some s => if String.eqb s EmptyString then None else Some s
  | None => None
  end.

(** [array[i] = v].  Inside the array the slot is replaced; at the end the
    array grows by one; past the end JavaScript leaves holes in between,
    which [filter], [push] and [length] treat as this model treats [None]. *)
Definition arraySet {A} (i : nat) (v : option A) (l : list (option A))
    : list (option A) :=
  if decide (i < length l) then <[i := v]> l
  else l ++ replicate (i - length l) None ++ [v].

(** [images.filter((img) => img !== null)] *)
Fixpoint filterNotNull (l : list (option ImageData)) : list ImageData :=
  match l with
  | [] => []
  | Some img :: rest => img :: filterNotNull rest
  | None :: rest => filterNotNull rest
  end.

Definition set_outputImage_src (s : string) (st : State) : State :=
  set_output {| outputImage_src := s;
                outputImage_display := outputImage_display (output st);
                downloadButton_display := downloadButton_display (output st) |} st.

Definition set_outputImage_display (s : string) (st : State) : State :=
  set_output {| outputImage_src := outputImage_src (output st);
                outputImage_display := s;
                downloadButton_display := downloadButton_display (output st) |} st.

Definition set_downloadButton_display (s : string) (st : State) : State :=
  set_output {| outputImage_src := outputImage_src (output st);
                outputImage_display := outputImage_display (output st);
                downloadButton_display := s |} st.

(** Every assignment to the status line is also recorded in the trace. *)
Definition writeStatus (c : StatusContent) : M unit :=
  modify (set_statusEl c) ;; emit (StatusWritten c).

Definition errorMarkup (message : string) : string :=
  "<span class=" +:+ Js.dquote +:+ "text-red-400" +:+ Js.dquote +:+ ">"
  +:+ message +:+ "</span>".

(** [function showStatusError(message)] *)
Definition showStatusError (message : string) : M unit :=
  writeStatus (innerHTML (errorMarkup message)).

Definition msgDialogUnavailable : string :=
  "La selección de clave de API no está disponible. Por favor, configura la variable de entorno API_KEY.".

(** [async function openApiKeyDialog()] *)
Definition openApiKeyDialog (env : Env) : M unit :=
  match openSelectKey env with
  | Some settles => emit OpenSelectKeyCalled ;; await settles
  | None => showStatusError msgDialogUnavailable
  end.

Definition msgNoImages : string :=
  "No se generaron imágenes. El prompt puede haber sido bloqueado.".

(** The request [generateImage] sends. *)
Definition generateImagesRequest (prompt : string) : GenerateImagesParameters :=
  {| gi_model := "imagen-4.0-generate-001"; gi_prompt := prompt |}.

(** [async function generateImage(prompt, apiKey)] *)
Definition generateImage (env : Env) (prompt apiKey : string) : M unit :=
  let request := generateImagesRequest prompt in
  emit (GenerateImagesCalled apiKey request) ;;
  let* response := await (generateImages env apiKey request) in
  match generatedImages response with
  | None | Some [] => throw (ErrorObject msgNoImages)
  | Some (first :: _) =>
      let base64ImageBytes := imageBytes (image first) in
      let imageUrl := "data:image/jpeg;base64," +:+ base64ImageBytes in
      modify (set_outputImage_src imageUrl) ;;
      modify (set_outputImage_display "block") ;;
      modify (set_downloadButton_display "block")
  end.

(** The loop of [combineImages] over the parts of the first candidate: the
    first part with inline data is rendered and ends the loop; the result is
    the final value of [generatedImageFound]. *)
Fixpoint scanParts (ps : list Part) : M bool :=
  match ps with
  | [] => ret false
  | part :: rest =>
      match inlineData part with
      | Some inline =>
          let base64ImageBytes := blob_data inline in
          let imageUrl :=
            "data:" +:+ blob_mimeType inline +:+ ";base64," +:+ base64ImageBytes in
          modify (set_outputImage_src imageUrl) ;;
          modify (set_outputImage_display "block") ;;
          modify (set_downloadButton_display "block") ;;
          ret true
      | None => scanParts rest
      end
  end.

Definition msgNoCombinedImage : string :=
  "No se pudo generar una imagen combinada. Intenta con un prompt diferente.".

(** The message of the [TypeError] raised when [response.candidates[0]] is
    undefined and [.content] is read from it (the wording is the engine's). *)
Definition msgUndefinedRead : string :=
  "Cannot read properties of undefined (reading 'content')".

(** The request [combineImages] sends: every image as an inline part, then
    the prompt as a text part; image and text are asked for in return. *)
Definition generateContentRequest (prompt : string) (imageList : list ImageData)
    : GenerateContentParameters :=
  let imageParts :=
    map (fun image =>
           {| inlineData := Some {| blob_mimeType := mimeType image;
                                    blob_data := base64 image |};
              text := None |}) imageList in
  let textPart := {| inlineData := None; text := Some prompt |} in
  {| gc_model := "gemini-2.5-flash-image-preview";
     gc_parts := imageParts ++ [textPart];
     gc_responseModalities := [IMAGE; TEXT] |}.

(** [async function combineImages(prompt, imageList, apiKey)] *)
Definition combineImages (env : Env) (prompt : string)
    (imageList : list ImageData) (apiKey : string) : M unit :=
  let request := generateContentRequest prompt imageList in
  emit (GenerateContentCalled apiKey request) ;;
  let* response := await (generateContent env apiKey request) in
  match candidates response with
  | [] => throw (ErrorObject msgUndefinedRead)
  | first :: _ =>
      let* generatedImageFound := scanParts (parts (content first)) in
      if generatedImageFound : bool then ret tt
      else throw (ErrorObject msgNoCombinedImage)
  end.

Definition classActive : string :=
  "whitespace-nowrap py-4 px-1 border-b-2 font-medium text-sm text-blue-400 border-blue-400".
Definition classInactive : string :=
  "whitespace-nowrap py-4 px-1 border-b-2 font-medium text-sm text-gray-500 border-transparent hover:text-gray-300 hover:border-gray-500".

(** [function switchTab(tab)] *)
Definition switchTab (tab : Tab) (st : State) : State :=
  let st := set_activeTab tab st in
  match tab with
  | generate =>
      set_view {| tabGenerate_className := classActive;
                  tabCombine_className := classInactive;
                  panelGenerate_display := "block";
                  panelCombine_display := "none";
                  generateButton_textContent := "Generar" |} st
  | combine =>
      set_view {| tabGenerate_className := classInactive;
                  tabCombine_className := classActive;
                  panelGenerate_display := "none";
                  panelCombine_display := "block";
                  generateButton_textContent := "Combinar" |} st
  end.

Definition set_pointerEvents (s : string) (area : UploadArea) : UploadArea :=
  {| index := index area; pointerEvents := s; dragover := dragover area;
     placeholder_display := placeholder_display area;
     preview_src := preview_src area; preview_display := preview_display area |}.

(** [function setControlsDisabled(disabled)] *)
Definition setControlsDisabled (disabled : bool) (st : State) : State :=
  let st := set_controls {| generateButton_disabled := disabled;
                            promptGenerateEl_disabled := disabled;
                            promptCombineEl_disabled := disabled;
                            addImageButton_disabled := disabled |} st in
  set_uploadAreas
    (map (set_pointerEvents (if disabled then "none" else "auto")) (uploadAreas st))
    st.

Definition msgModelNotFound : string :=
  "Modelo no encontrado. Esto puede ser causado por una clave de API inválida o problemas de permisos. Por favor, verifica tu clave de API.".
Definition msgInvalidKey : string :=
  "Tu clave de API es inválida. Por favor, añade una clave de API válida.".
Definition msgUnknownError : string := "Ocurrió un error desconocido.".

(** [e instanceof Error ? e.message : '...'] *)
Definition errorMessageOf (e : JsThrown) : string :=
  match e with
  | ErrorObject message => message
  | OtherValue _ => msgUnknownError
  end.

(** The classification in the [catch] block of [performGeneration]: the
    final values of [userFriendlyMessage] and [shouldOpenDialog]. *)
Definition classifyError (errorMessage : string) : string * bool :=
  if Js.includes errorMessage "Requested entity was not found." then
    (msgModelNotFound, true)
  else if Js.includes errorMessage "API_KEY_INVALID"
          || Js.includes errorMessage "API key not valid"
          || Js.includes (Js.toLowerCase errorMessage) "permission denied" then
    (msgInvalidKey, true)
  else ("Error: " +:+ errorMessage, false).

(** The [try] block of [performGeneration]. *)
Definition tryBlock (env : Env) (apiKey prompt : string) : M unit :=
  (let* tab := gets activeTab in
   match tab with
   | generate => generateImage env prompt apiKey
   | combine =>
       let* imgs := gets images in
       let validImages := filterNotNull imgs in
       combineImages env prompt validImages apiKey
   end) ;;
  writeStatus (innerText "Imagen generada con éxito.").

(** The [catch] block of [performGeneration]. *)
Definition catchBlock (env : Env) (e : JsThrown) : M unit :=
  emit (ConsoleError "La generación de imagen falló:" e) ;;
  let errorMessage := errorMessageOf e in
  let '(userFriendlyMessage, shouldOpenDialog) := classifyError errorMessage in
  showStatusError userFriendlyMessage ;;
  if shouldOpenDialog : bool then openApiKeyDialog env else ret tt.

(** [performGeneration] from the point where validation has passed: the
    previous output is hidden, the controls are disabled, and the remote
    operation runs inside [try]/[catch]/[finally]. *)
Definition performRequest (env : Env) (apiKey prompt : string) : M unit :=
  modify (set_outputImage_display "none") ;;
  modify (set_downloadButton_display "none") ;;
  modify (setControlsDisabled true) ;;
  try_catch_finally
    (tryBlock env apiKey prompt)
    (catchBlock env)
    (modify (setControlsDisabled false)).

Definition msgNoApiKey : string :=
  "Clave de API no configurada. Por favor, añade tu clave de API.".
Definition msgNoGeneratePrompt : string :=
  "Por favor, introduce un prompt para generar una imagen.".
Definition msgTooFewImages : string :=
  "Por favor, sube al menos dos imágenes para combinar.".
Definition msgNoCombinePrompt : string :=
  "Por favor, describe cómo combinar las imágenes.".

(** [async function performGeneration()] *)
Definition performGeneration (env : Env) : M unit :=
  match truthy (API_KEY env) with
  | None =>
      showStatusError msgNoApiKey ;;
      openApiKeyDialog env
  | Some apiKey =>
      let* tab := gets activeTab in
      match tab with
      | generate =>
          let* value := gets promptGenerateEl_value in
          let prompt := Js.trim value in
          if String.eqb prompt EmptyString then
            showStatusError msgNoGeneratePrompt
          else
            writeStatus (innerText "Generando imagen...") ;;
            performRequest env apiKey prompt
      | combine =>
          let* value := gets promptCombineEl_value in
          let prompt := Js.trim value in
          let* imgs := gets images in
          let validImages := filterNotNull imgs in
          if (length validImages <? 2)%nat then
            showStatusError msgTooFewImages
          else if String.eqb prompt EmptyString then
            showStatusError msgNoCombinePrompt
          else
            writeStatus (innerText "Combinando imágenes...") ;;
            performRequest env apiKey prompt
      end
  end.

(** ** Upload areas and the event listeners *)

Definition set_index (i : nat) (area : UploadArea) : UploadArea :=
  {| index := i; pointerEvents := pointerEvents area; dragover := dragover area;
     placeholder_display := placeholder_display area;
     preview_src := preview_src area; preview_display := preview_display area |}.

Definition set_dragover (b : bool) (area : UploadArea) : UploadArea :=
  {| index := index area; pointerEvents := pointerEvents area; dragover := b;
     placeholder_display := placeholder_display area;
     preview_src := preview_src area; preview_display := preview_display area |}.

(** The three assignments that follow [onImageLoaded] in both listeners. *)
Definition showPreview (imageData : ImageData) (area : UploadArea) : UploadArea :=
  {| index := index area; pointerEvents := pointerEvents area;
     dragover := dragover area;
     placeholder_display := "none";
     preview_src := "data:" +:+ mimeType imageData +:+ ";base64," +:+ base64 imageData;
     preview_display := "block" |}.

Definition alterArea (f : UploadArea -> UploadArea) (k : nat) (st : State) : State :=
  set_uploadAreas (alter f k (uploadAreas st)) st.

(** [function setupUploadArea(area, index)], for the area at position [k]
    among the upload areas: from now on its listeners write to slot
    [index]. *)
Definition setupUploadArea (k index : nat) (st : State) : State :=
  alterArea (set_index index) k st.

(** [const onImageLoaded = (imageData) => { images[index] = imageData; }] *)
Definition onImageLoaded (index : nat) (imageData : ImageData) (st : State) : State :=
  set_images (arraySet index (Some imageData) (images st)) st.

(** The body shared by the [change] and [drop] listeners of the area at
    position [k].  [file] is the first file of the event, if there is one,
    given by the way [fileToBase64] settles for it. *)
Definition fileReceived (k : nat) (file : option (Completion ImageData)) : M unit :=
  let* areas := gets uploadAreas in
  match areas !! k, file with
  | Some area, Some read =>
      let* imageData := await read in
      modify (onImageLoaded (index area) imageData) ;;
      modify (alterArea (showPreview imageData) k)
  | _, _ => ret tt
  end.

(** The [click] listener of the add-image button. *)
Definition addImageClicked (st : State) : State :=
  let newIndex := length (images st) in
  let newUploadArea :=
    {| index := newIndex; pointerEvents := EmptyString; dragover := false;
       placeholder_display := EmptyString; preview_src := EmptyString;
       preview_display := EmptyString |} in
  let k := length (uploadAreas st) in
  let st := set_uploadAreas (uploadAreas st ++ [newUploadArea]) st in
  let st := set_images (images st ++ [None]) st in
  setupUploadArea k newIndex st.

(** The script's top level, run once on the loaded page: the state variables
    get their initial values, and every upload area of the page gets a slot
    and its listeners. *)
Definition initialise (page : State) : State :=
  foldl (fun st k => setupUploadArea k k (set_images (images st ++ [None]) st))
        (set_images [] (set_activeTab generate page))
        (seq 0 (length (uploadAreas page))).

(** What the user can do to the page. *)
Inductive UiEvent :=
| TabGenerateClick
| TabCombineClick
| GenerateButtonClick
| DownloadButtonClick
| AddImageButtonClick
| UploadAreaClick (k : nat)
| FileChange (k : nat) (file : option (Completion ImageData))
| DragOver (k : nat)
| DragLeave (k : nat)
| Drop (k : nat) (file : option (Completion ImageData))
| PromptGenerateInput (s : string)
| PromptCombineInput (s : string).

(** The listener that runs for each event.  Listeners are modelled as
    runnable in every state; the browser runs fewer of them (none for a
    click on a disabled control).  A click on an upload area opens the file
    picker, and a click on the download control saves the output image:
    neither touches the state modelled here. *)
Definition dispatch (env : Env) (ev : UiEvent) : M unit :=
  match ev with
  | TabGenerateClick => modify (switchTab generate)
  | TabCombineClick => modify (switchTab combine)
  | GenerateButtonClick => performGeneration env
  | DownloadButtonClick => ret tt
  | AddImageButtonClick => modify addImageClicked
  | UploadAreaClick k => ret tt
  | FileChange k file => fileReceived k file
  | DragOver k => modify (alterArea (set_dragover true) k)
  | DragLeave k => modify (alterArea (set_dragover false) k)
  | Drop k file => modify (alterArea (set_dragover false) k) ;; fileReceived k file
  | PromptGenerateInput s => modify (set_promptGenerateEl_value s)
  | PromptCombineInput s => modify (set_promptCombineEl_value s)
  end.

(** The states the page can be in: the initial one, and every state a
    listener leaves behind. *)
Inductive reachable : State -> Prop :=
| reachable_init page : reachable (initialise page)
| reachable_step env ev st c st' t :
    reachable st -> dispatch env ev st = (c, st', t) -> reachable st'.

(** ** Sample page, worlds and runs *)

Module Sample.

Definition area0 : UploadArea :=
  {| index := 0; pointerEvents := EmptyString; dragover := false;
     placeholder_display := EmptyString; preview_src := EmptyString;
     preview_display := EmptyString |}.

(** A page with two upload areas, as loaded. *)
Definition page : State :=
  {| activeTab := generate; images := [];
     promptGenerateEl_value := EmptyString;
     promptCombineEl_value := EmptyString;
     view := {| tabGenerate_className := classActive;
                tabCombine_className := classInactive;
                panelGenerate_display := EmptyString;
                panelCombine_display := EmptyString;
                generateButton_textContent := "Generar" |};
     controls := {| generateButton_disabled := false;
                    promptGenerateEl_disabled := false;
                    promptCombineEl_disabled := false;
                    addImageButton_disabled := false |};
     output := {| outputImage_src := EmptyString;
                  outputImage_display := EmptyString;
                  downloadButton_display := EmptyString |};
     statusEl := innerText EmptyString;
     uploadAreas := [area0; area0] |}.

Definition start : State := initialise page.

Definition cat : ImageData := {| base64 := "Q0FU"; mimeType := "image/png" |}.
Definition dog : ImageData := {| base64 := "RE9H"; mimeType := "image/jpeg" |}.

Definition textPart (s : string) : Part := {| inlineData := None; text := Some s |}.
Definition imagePart (mime bytes : string) : Part :=
  {| inlineData := Some {| blob_mimeType := mime; blob_data := bytes |};
     text := None |}.

(** A world with a credential and a host dialog, whose image endpoint
    returns [imgs] and whose multimodal endpoint returns one candidate
    with the parts [ps]. *)
Definition world (imgs : option (list GeneratedImage)) (ps : list Part) : Env :=
  {| API_KEY := Some "k-123";
     openSelectKey := Some (Normal tt);
     generateImages := fun _ _ => Normal {| generatedImages := imgs |};
     generateContent := fun _ _ =>
       Normal {| candidates := [ {| content := {| parts := ps |} |} ] |} |}.

(** A world whose remote calls reject with [e]; [dialog] tells whether the
    host exposes the key-selection dialog. *)
Definition failing (e : JsThrown) (dialog : option (Completion unit)) : Env :=
  {| API_KEY := Some "k-123";
     openSelectKey := dialog;
     generateImages := fun _ _ => Throw e;
     generateContent := fun _ _ => Throw e |}.

(** A world without a credential. *)
Definition noKey (dialog : option (Completion unit)) : Env :=
  {| API_KEY := None;
     openSelectKey := dialog;
     generateImages := fun _ _ => Normal {| generatedImages := None |};
     generateContent := fun _ _ => Normal {| candidates := [] |} |}.

(** Generate mode with the prompt typed in. *)
Definition withPrompt (p : string) : State := set_promptGenerateEl_value p start.

(** Combine mode with both areas filled and the prompt typed in. *)
Definition twoImages (p : string) : State :=
  set_promptCombineEl_value p
    (onImageLoaded 1 dog (onImageLoaded 0 cat (switchTab combine start))).

(** A state in which an earlier request has left an image on show. *)
Definition shown (st : State) : State :=
  set_output {| outputImage_src := "data:image/jpeg;base64,AAAA";
                outputImage_display := "block";
                downloadButton_display := "block" |} st.

End Sample.

(** ** What the properties below observe *)

(** The three components of a finished run. *)
Definition completion {A} (r : Completion A * State * list Event) : Completion A := r.1.1.
Definition final {A} (r : Completion A * State * list Event) : State := r.1.2.
Definition trace {A} (r : Completion A * State * list Event) : list Event := r.2.

(** No call to the remote service is among the effects. *)
Definition noNetworkCall (t : list Event) : Prop :=
  Forall (fun ev => isNetworkCall ev = false) t.

(** The status line as [showStatusError message] leaves it. *)
Definition errorStatus (message : string) : StatusContent :=
  innerHTML (errorMarkup message).

(** An element is on show when its [style.display] is ['block']. *)
Definition visible (display : string) : Prop := display = "block".

(** The number of slots that hold an image. *)
Definition populatedSlots (st : State) : nat := length (filterNotNull (images st)).

(** The prompt field of the active mode. *)
Definition activePrompt (st : State) : string :=
  match activeTab st with
  | generate => promptGenerateEl_value st
  | combine => promptCombineEl_value st
  end.

(** All four controls accept input, and so does every upload area. *)
Definition controlsEnabled (st : State) : Prop :=
  controls st = {| generateButton_disabled := false;
                   promptGenerateEl_disabled := false;
                   promptCombineEl_disabled := false;
                   addImageButton_disabled := false |}
  /\ Forall (fun area => pointerEvents area = "auto") (uploadAreas st).

(** The remote call that a request started in [st] makes rejects with [e]. *)
Definition remoteRejects (env : Env) (st : State) (apiKey prompt : string)
    (e : JsThrown) : Prop :=
  match activeTab st with
  | generate => generateImages env apiKey (generateImagesRequest prompt) = Throw e
  | combine =>
      generateContent env apiKey
        (generateContentRequest prompt (filterNotNull (images st))) = Throw e
  end.

(** The trigger ends before any request: the credential is missing, the
    prompt of the active mode is empty once trimmed, or combine mode has
    fewer than two populated slots. *)
Definition stopsBeforeRequest (env : Env) (st : State) : Prop :=
  truthy (API_KEY env) = None
  \/ Js.trim (activePrompt st) = EmptyString
  \/ (activeTab st = combine /\ populatedSlots st < 2).

(** How one operation may change the slot sequence: not at all, by a new
    empty slot at the end, or by a new value at an index it already has. *)
Inductive slotsStep (before after : list (option ImageData)) : Prop :=
| slots_same : after = before -> slotsStep before after
| slots_appended : after = before ++ [None] -> slotsStep before after
| slots_replaced i imageData :
    i < length before -> after = <[i := Some imageData]> before ->
    slotsStep before after.

(** Every upload area writes to a slot that exists. *)
Definition indicesInRange (st : State) : Prop :=
  Forall (fun i => i < length (images st)) (index <$> uploadAreas st).

(** The part of the state that only the upload listeners and the add-image
    button change: the slots and the slot index of every upload area. *)
Definition sameSlots (st st' : State) : Prop :=
  images st' = images st /\ index <$> uploadAreas st' = index <$> uploadAreas st.

(** A computation keeps a relation between the state it starts in and the
    state it ends in, however it completes. *)
Definition preserves {A} (R : State -> State -> Prop) (m : M A) : Prop :=
  forall st, R st (final (m st)).

(** The network call that a request started in [st] makes. *)
Definition networkCallOf (st : State) (apiKey prompt : string) : Event :=
  match activeTab st with
  | generate => GenerateImagesCalled apiKey (generateImagesRequest prompt)
  | combine =>
      GenerateContentCalled apiKey
        (generateContentRequest prompt (filterNotNull (images st)))
  end.

(** The outcome of showing [message] and then running [openApiKeyDialog]:
    a host that exposes the key-selection dialog has it invoked and the
    message stays; on a host without it the dialog is not invoked and the
    status ends as the fallback message. *)
Definition dialogAttempted {A} (env : Env) (message : string)
    (run : Completion A * State * list Event) : Prop :=
  In (StatusWritten (errorStatus message)) (trace run)
  /\ (openSelectKey env <> None ->
      In OpenSelectKeyCalled (trace run)
      /\ statusEl (final run) = errorStatus message)
  /\ (openSelectKey env = None ->
      ~ In OpenSelectKeyCalled (trace run)
      /\ statusEl (final run) = errorStatus msgDialogUnavailable).

(** The output as a rendered image leaves it. *)
Definition rendered (url : string) : Output :=
  {| outputImage_src := url;
     outputImage_display := "block";
     downloadButton_display := "block" |}.

(** The status line shows one of the three validation messages. *)
Definition validationStatus (c : StatusContent) : Prop :=
  c = errorStatus msgNoGeneratePrompt
  \/ c = errorStatus msgNoCombinePrompt
  \/ c = errorStatus msgTooFewImages.

(** The state after a sequence of events, each in its own environment. *)
Definition runEvents (evs : list (Env * UiEvent)) (st : State) : State :=
  foldl (fun st '(env, ev) => final (dispatch env ev st)) st evs.

(** ** The image encoder and the listeners on files *)

(** [s.split(sep)] for a separator of one character: the pieces of [s]
    between the separators, in order; a string without the separator is the
    only piece. *)
Fixpoint splitOn (sep : ascii) (s : string) : list string :=
  match s with
  | EmptyString => [EmptyString]
  | String c s' =>
      if Ascii.eqb c sep then EmptyString :: splitOn sep s'
      else
        match splitOn sep s' with
        | piece :: pieces => String c piece :: pieces
        | [] => [String c EmptyString]
        end
  end.

(** What [FileReader.readAsDataURL] hands to [onload]: a data URL, which
    holds a media type and the base64 text of the file's bytes. *)
Record DataUrl := { mediaType : string; payload : string }.

(** The text of a data URL, [reader.result]. *)
Definition dataUrlText (u : DataUrl) : string :=
  "data:" +:+ mediaType u +:+ ";base64," +:+ payload u.

(** A file as the script sees it: [file.type], and what reading it as a data
    URL gives ([None] when the reader fires its error event). *)
Record File := { file_type : string; file_read : option DataUrl }.

(** [function fileToBase64(file)], by the way its promise settles.  The
    text of a data URL always has a comma, so [result.split(',')[1]] is
    defined; the value a reader error rejects with is the error event, which
    is no [Error]. *)
Definition fileToBase64 (file : File) : Completion ImageData :=
  match file_read file with
  | Some u =>
      let result := dataUrlText u in
      let piece := default EmptyString (splitOn "," result !! 1) in
      Normal {| base64 := piece; mimeType := file_type file |}
  | None => Throw (OtherValue "[object ProgressEvent]")
  end.

(** The [change] listener of the area at position [k], for the files its
    input holds: [input.files[0]] is the only one read. *)
Definition changeListener (k : nat) (files : list File) : M unit :=
  fileReceived k (fileToBase64 <$> head files).

(** The [drop] listener of the area at position [k], for the files of the
    drag. *)
Definition dropListener (k : nat) (files : list File) : M unit :=
  modify (alterArea (set_dragover false) k) ;;
  fileReceived k (fileToBase64 <$> head files).

(** ** What the further properties observe *)

(** The data URL a listener builds for the preview of [imageData]. *)
Definition previewUrl (imageData : ImageData) : string :=
  "data:" +:+ mimeType imageData +:+ ";base64," +:+ base64 imageData.

(** [s] holds no comma. *)
Definition commaFree (s : string) : Prop := Js.includes s "," = false.

(** The calls to the remote service among the effects, in order. *)
Definition networkCalls (t : list Event) : list Event := List.filter isNetworkCall t.

(** The status line after a request that succeeded. *)
Definition successStatus : StatusContent := innerText "Imagen generada con éxito.".

(** The output with the image and the download control hidden. *)
Definition hiddenOutput (o : Output) : Output :=
  {| outputImage_src := outputImage_src o;
     outputImage_display := "none";
     downloadButton_display := "none" |}.

(** What the primary action reads but never writes: the mode, the slots, the
    prompts, the presentation of the tabs, and everything of the upload
    areas but their [pointerEvents]. *)
Definition sameInputs (st st' : State) : Prop :=
  activeTab st' = activeTab st
  /\ images st' = images st
  /\ promptGenerateEl_value st' = promptGenerateEl_value st
  /\ promptCombineEl_value st' = promptCombineEl_value st
  /\ view st' = view st
  /\ set_pointerEvents EmptyString <$> uploadAreas st'
     = set_pointerEvents EmptyString <$> uploadAreas st.

(** Every upload area has a slot of its own: the area at position [k] writes
    to slot [k], and there are as many slots as areas. *)
Definition ownSlots (st : State) : Prop :=
  index <$> uploadAreas st = seq 0 (length (images st)).

(** The presentation is the one [switchTab] gives the active mode. *)
Definition viewAgrees (st : State) : Prop :=
  view st = view (switchTab (activeTab st) st).

(** The inline part [combineImages] sends for one image. *)
Definition inlinePartOf (image : ImageData) : Part :=
  {| inlineData := Some {| blob_mimeType := mimeType image;
                           blob_data := base64 image |};
     text := None |}.

(** Slot [i] holds an image. *)
Definition populatedAt (st : State) (i : nat) : Prop :=
  exists imageData, images st !! i = Some (Some imageData).

(** ** Facts about the string built-ins *)

Section StringFacts.

Lemma app_empty (t : string) : EmptyString +:+ t = t.
Proof. reflexivity. Qed.

Lemma app_String (a : ascii) (s t : string) :
  String a s +:+ t = String a (s +:+ t).
Proof. reflexivity. Qed.

Lemma startsWith_spec (needle s : string) :
  Js.startsWith needle s = true <-> exists after, s = needle +:+ after.
Proof.
  revert s. induction needle as [|a needle IH]; intros s; simpl.
  - split; [intros _; exists s; reflexivity | reflexivity].
  - destruct s as [|b s].
    + split; [discriminate | intros [after H]; discriminate H].
    + rewrite andb_true_iff, Ascii.eqb_eq, IH. split.
      * intros [-> [after ->]]. exists after. reflexivity.
      * intros [after H]. rewrite app_String in H.
        injection H as -> ->. split; [reflexivity | exists after; reflexivity].
Qed.

Lemma includes_spec (s needle : string) :
  Js.includes s needle = true <-> contains s needle.
Proof.
  unfold contains. induction s as [|b s IH].
  - simpl. rewrite orb_false_r, startsWith_spec. split.
    + intros [after H]. exists EmptyString, after. exact H.
    + intros [[|c before] [after H]].
      * exists after. exact H.
      * rewrite app_String in H. discriminate H.
  - cbn [Js.includes]. rewrite orb_true_iff, startsWith_spec, IH. split.
    + intros [[after H] | [before [after H]]].
      * exists EmptyString, after. exact H.
      * exists (String b before), after. rewrite app_String, H. reflexivity.
    + intros [[|c before] [after H]].
      * left. exists after. exact H.
      * right. rewrite app_String in H. injection H as _ H.
        exists before, after. exact H.
Qed.

Lemma includes_false (s needle : string) :
  Js.includes s needle = false <-> ~ contains s needle.
Proof.
  rewrite <- includes_spec. destruct (Js.includes s needle); split;
    congruence.
Qed.

Lemma toLowerCase_app (s t : string) :
  Js.toLowerCase (s +:+ t) = Js.toLowerCase s +:+ Js.toLowerCase t.
Proof.
  induction s as [|a s IH]; [reflexivity|].
  rewrite app_String. simpl. rewrite IH, app_String. reflexivity.
Qed.

Lemma toLowerCase_split (s x y : string) :
  Js.toLowerCase s = x +:+ y ->
  exists s1 s2, s = s1 +:+ s2 /\ Js.toLowerCase s1 = x /\ Js.toLowerCase s2 = y.
Proof.
  revert s. induction x as [|a x IH]; intros s H.
  - exists EmptyString, s. auto.
  - destruct s as [|b s]; [discriminate H|].
    rewrite app_String in H. simpl in H. injection H as Ha H.
    destruct (IH s H) as (s1 & s2 & -> & H1 & H2).
    exists (String b s1), s2. simpl. rewrite Ha, H1. auto.
Qed.

(** The search the script runs on the lower-cased message finds exactly
    the occurrences up to case. *)
Lemma includes_toLowerCase_spec (s needle : string) :
  Js.includes (Js.toLowerCase s) needle = true <-> containsIgnoringCase s needle.
Proof.
  rewrite includes_spec. unfold containsIgnoringCase, contains. split.
  - intros (before & after & H).
    apply toLowerCase_split in H as (s1 & s23 & -> & H1 & H).
    apply toLowerCase_split in H as (s2 & s3 & -> & H2 & H3).
    exists s2. split; [exists s1, s3; reflexivity | exact H2].
  - intros (piece & (before & after & ->) & <-).
    exists (Js.toLowerCase before), (Js.toLowerCase after).
    rewrite !toLowerCase_app. reflexivity.
Qed.

Lemma ws2_not_ws1 (a b : ascii) : Js.ws2 a b = true -> Js.ws1 a = false.
Proof.
  unfold Js.ws2, Js.ws1. intros H.
  apply andb_true_iff in H as [H _]. apply N.eqb_eq in H. rewrite H.
  reflexivity.
Qed.

Lemma ws3_first (a b c : ascii) :
  Js.ws3 a b c = true ->
  N_of_ascii a = 225%N \/ N_of_ascii a = 226%N \/
  N_of_ascii a = 227%N \/ N_of_ascii a = 239%N.
Proof.
  unfold Js.ws3. intros H.
  repeat (apply orb_true_iff in H as [H|H]);
    repeat (apply andb_true_iff in H as [H _]);
    apply N.eqb_eq in H; auto.
Qed.

Lemma ws3_not_ws1 (a b c : ascii) : Js.ws3 a b c = true -> Js.ws1 a = false.
Proof.
  intros H. unfold Js.ws1.
  destruct (ws3_first _ _ _ H) as [E|[E|[E|E]]]; rewrite E; reflexivity.
Qed.

Lemma ws3_not_ws2 (a b c : ascii) : Js.ws3 a b c = true -> Js.ws2 a b = false.
Proof.
  intros H. unfold Js.ws2.
  destruct (ws3_first _ _ _ H) as [E|[E|[E|E]]]; rewrite E; reflexivity.
Qed.

Lemma trimStart_WhiteSpaceOnly (s : string) :
  Js.WhiteSpaceOnly s -> Js.trimStart s = EmptyString.
Proof.
  unfold Js.trimStart. induction 1 as [|a s Ha _ IH|a b s Hab _ IH|a b c s Habc _ IH].
  - reflexivity.
  - cbn [Js.stripFront]. rewrite Ha. exact IH.
  - cbn [Js.stripFront]. rewrite (ws2_not_ws1 _ _ Hab), Hab. exact IH.
  - cbn [Js.stripFront].
    rewrite (ws3_not_ws1 _ _ _ Habc), (ws3_not_ws2 _ _ _ Habc), Habc. exact IH.
Qed.

(** [trim] leaves nothing of an empty or white-space-only string. *)
Lemma trim_WhiteSpaceOnly (s : string) :
  Js.WhiteSpaceOnly s -> Js.trim s = EmptyString.
Proof.
  intros H. unfold Js.trim. rewrite (trimStart_WhiteSpaceOnly s H). reflexivity.
Qed.

End StringFacts.

(** ** Reasoning about computations *)

Section Preservation.

Context (R : State -> State -> Prop) `{!PreOrder R}.

Lemma preserves_ret {A} (a : A) : preserves R (ret a).
Proof. intros st. reflexivity. Qed.

Lemma preserves_throw {A} (e : JsThrown) : preserves R (@throw A e).
Proof. intros st. reflexivity. Qed.

Lemma preserves_emit (ev : Event) : preserves R (emit ev).
Proof. intros st. reflexivity. Qed.

Lemma preserves_gets {A} (f : State -> A) : preserves R (gets f).
Proof. intros st. reflexivity. Qed.

Lemma preserves_await {A} (c : Completion A) : preserves R (await c).
Proof. intros st. reflexivity. Qed.

Lemma preserves_modify (f : State -> State) :
  (forall st, R st (f st)) -> preserves R (modify f).
Proof. intros H st. apply H. Qed.

Lemma preserves_bind {A B} (m : M A) (k : A -> M B) :
  preserves R m -> (forall a, preserves R (k a)) -> preserves R (bind m k).
Proof.
  intros Hm Hk st. unfold bind. specialize (Hm st).
  destruct (m st) as [[[a|e] st1] t1]; [|exact Hm].
  specialize (Hk a st1). destruct (k a st1) as [[c st2] t2].
  etrans; [exact Hm | exact Hk].
Qed.

Lemma preserves_try_catch_finally (body : M unit)
    (handler : JsThrown -> M unit) (cleanup : M unit) :
  preserves R body -> (forall e, preserves R (handler e)) ->
  preserves R cleanup ->
  preserves R (try_catch_finally body handler cleanup).
Proof.
  intros Hb Hh Hc st. unfold try_catch_finally. specialize (Hb st).
  destruct (body st) as [[[[]|e] st1] t1].
  - specialize (Hc st1). destruct (cleanup st1) as [[c3 st3] t3].
    etrans; [exact Hb | exact Hc].
  - specialize (Hh e st1). destruct (handler e st1) as [[c2 st2] t2].
    specialize (Hc st2). destruct (cleanup st2) as [[c3 st3] t3].
    etrans; [exact Hb |]. etrans; [exact Hh | exact Hc].
Qed.

End Preservation.

#[local] Instance sameSlots_preorder : PreOrder sameSlots.
Proof.
  split.
  - intros st. split; reflexivity.
  - intros st1 st2 st3 [H1 H2] [H3 H4]. split; congruence.
Qed.

Create HintDb frame discriminated.

(** One step of a proof that a computation keeps [sameSlots]. *)
Ltac frame_step :=
  cbv zeta;
  first
    [ solve [ auto with frame ]
    | apply (preserves_ret sameSlots)
    | apply (preserves_throw sameSlots)
    | apply (preserves_emit sameSlots)
    | apply (preserves_gets sameSlots)
    | apply (preserves_await sameSlots)
    | apply (preserves_bind sameSlots); [| intros ?]
    | apply (preserves_try_catch_finally sameSlots); [| intros ? |]
    | apply (preserves_modify sameSlots); intros ?; split; reflexivity ].

(** [m ;; k] or [let* x := m in k] where [m] is settled by [frame_step];
    what remains is [k], with its argument named [x]. *)
Tactic Notation "frame_bind" "as" ident(x) :=
  cbv zeta; apply (preserves_bind sameSlots); [solve [repeat frame_step] | intros x].

Lemma fmap_index_set_pointerEvents (s : string) (areas : list UploadArea) :
  index <$> map (set_pointerEvents s) areas = index <$> areas.
Proof. induction areas as [|a areas IH]; [reflexivity|]. simpl. f_equal. exact IH. Qed.

Lemma preserves_writeStatus (c : StatusContent) : preserves sameSlots (writeStatus c).
Proof. unfold writeStatus. repeat frame_step. Qed.

Lemma preserves_showStatusError (message : string) :
  preserves sameSlots (showStatusError message).
Proof. apply preserves_writeStatus. Qed.

Lemma preserves_openApiKeyDialog (env : Env) :
  preserves sameSlots (openApiKeyDialog env).
Proof.
  unfold openApiKeyDialog. destruct (openSelectKey env).
  - repeat frame_step.
  - apply preserves_showStatusError.
Qed.

#[local] Hint Resolve preserves_writeStatus preserves_showStatusError
  preserves_openApiKeyDialog : frame.

Lemma preserves_generateImage (env : Env) (prompt apiKey : string) :
  preserves sameSlots (generateImage env prompt apiKey).
Proof.
  unfold generateImage. frame_bind as u. frame_bind as response.
  destruct (generatedImages response) as [[|first others]|]; repeat frame_step.
Qed.

Lemma preserves_scanParts (ps : list Part) : preserves sameSlots (scanParts ps).
Proof.
  induction ps as [|part rest IH]; simpl; [frame_step|].
  destruct (inlineData part); [repeat frame_step | exact IH].
Qed.

Lemma preserves_combineImages (env : Env) (prompt : string)
    (imageList : list ImageData) (apiKey : string) :
  preserves sameSlots (combineImages env prompt imageList apiKey).
Proof.
  unfold combineImages. frame_bind as u. frame_bind as response.
  destruct (candidates response) as [|first others]; [frame_step|].
  apply (preserves_bind sameSlots); [apply preserves_scanParts|].
  intros [|]; frame_step.
Qed.

Lemma preserves_setControlsDisabled (disabled : bool) :
  preserves sameSlots (modify (setControlsDisabled disabled)).
Proof.
  apply (preserves_modify sameSlots). intros st. split; [reflexivity|].
  apply fmap_index_set_pointerEvents.
Qed.

#[local] Hint Resolve preserves_generateImage preserves_combineImages
  preserves_setControlsDisabled : frame.

Lemma preserves_performRequest (env : Env) (apiKey prompt : string) :
  preserves sameSlots (performRequest env apiKey prompt).
Proof.
  unfold performRequest. frame_bind as u1. frame_bind as u2. frame_bind as u3.
  frame_step.
  - unfold tryBlock. frame_step; [|frame_step].
    frame_bind as tab. destruct tab; [frame_step|].
    frame_bind as imgs. frame_step.
  - unfold catchBlock. frame_bind as u4.
    destruct (classifyError (errorMessageOf e)) as [userFriendlyMessage [|]];
      repeat frame_step.
  - frame_step.
Qed.

#[local] Hint Resolve preserves_performRequest : frame.

Lemma preserves_performGeneration (env : Env) :
  preserves sameSlots (performGeneration env).
Proof.
  unfold performGeneration. destruct (truthy (API_KEY env)) as [apiKey|].
  - frame_bind as tab. destruct tab.
    + frame_bind as value. destruct (String.eqb _ _); repeat frame_step.
    + frame_bind as value. frame_bind as imgs.
      destruct (_ <? _)%nat; [frame_step|].
      destruct (String.eqb _ _); repeat frame_step.
  - repeat frame_step.
Qed.

(** ** The slot sequence and the upload areas *)

Lemma sameSlots_indicesInRange (st st' : State) :
  sameSlots st st' -> indicesInRange st -> indicesInRange st'.
Proof. unfold indicesInRange. intros [-> ->] H. exact H. Qed.

Lemma alterArea_sameSlots (f : UploadArea -> UploadArea) (k : nat) (st : State) :
  (forall area, index (f area) = index area) -> sameSlots st (alterArea f k st).
Proof.
  intros Hf. split; [reflexivity|]. simpl.
  rewrite (list_fmap_alter index f id).
  - apply list_alter_id. reflexivity.
  - apply Forall_true. exact Hf.
Qed.

Lemma addImageClicked_slots (st : State) :
  images (addImageClicked st) = images st ++ [None]
  /\ index <$> uploadAreas (addImageClicked st)
     = (index <$> uploadAreas st) ++ [length (images st)].
Proof.
  split; [reflexivity|]. simpl.
  rewrite alter_app_r_alt by lia. rewrite Nat.sub_diag.
  rewrite fmap_app. reflexivity.
Qed.

Lemma addImageClicked_indicesInRange (st : State) :
  indicesInRange st -> indicesInRange (addImageClicked st).
Proof.
  unfold indicesInRange. destruct (addImageClicked_slots st) as [-> ->].
  intros H. rewrite length_app. simpl. apply Forall_app. split.
  - eapply Forall_impl; [exact H|]. simpl. intros i Hi. lia.
  - apply Forall_singleton. lia.
Qed.

(** A file that arrives at an upload area replaces the slot the area was set
    up with, and leaves every area's slot index alone. *)
Lemma fileReceived_slots (k : nat) (file : option (Completion ImageData)) (st : State) :
  indicesInRange st ->
  slotsStep (images st) (images (final (fileReceived k file st)))
  /\ index <$> uploadAreas (final (fileReceived k file st)) = index <$> uploadAreas st.
Proof.
  intros Hin. unfold fileReceived, bind, gets. simpl.
  destruct (uploadAreas st !! k) as [area|] eqn:Hk;
    [|split; [apply slots_same|]; reflexivity].
  destruct file as [[imageData|e]|]; simpl;
    try (split; [apply slots_same|]; reflexivity).
  assert (index area < length (images st)) as Hlt.
  { apply (Forall_lookup_1 (fun i => i < length (images st))
             (index <$> uploadAreas st) k (index area) Hin).
    rewrite list_lookup_fmap, Hk. reflexivity. }
  split.
  - apply (slots_replaced _ _ (index area) imageData); [exact Hlt|].
    unfold arraySet. destruct (decide (index area < length (images st))); [reflexivity|lia].
  - rewrite (list_fmap_alter index (showPreview imageData) id).
    + apply list_alter_id. reflexivity.
    + apply Forall_true. reflexivity.
Qed.

Lemma slotsStep_length (before after : list (option ImageData)) :
  slotsStep before after -> length before <= length after.
Proof.
  intros [->| ->|i imageData _ ->].
  - lia.
  - rewrite length_app. simpl. lia.
  - rewrite length_insert. lia.
Qed.

Lemma fileReceived_indicesInRange (k : nat) (file : option (Completion ImageData))
    (st : State) :
  indicesInRange st -> indicesInRange (final (fileReceived k file st)).
Proof.
  intros Hin. destruct (fileReceived_slots k file st Hin) as [Hstep Hidx].
  unfold indicesInRange. rewrite Hidx.
  eapply Forall_impl; [exact Hin|]. simpl. intros i Hi.
  apply slotsStep_length in Hstep. lia.
Qed.

(** The loop at the top level of the script, from the point where the first
    [s] areas have been set up. *)
Lemma initialise_loop (m s : nat) (st : State) :
  length (images st) = s ->
  (forall j i, j < s -> (index <$> uploadAreas st) !! j = Some i -> i = j) ->
  let st' := foldl (fun st k => setupUploadArea k k (set_images (images st ++ [None]) st))
                   st (seq s m) in
  images st' = images st ++ replicate m None
  /\ length (uploadAreas st') = length (uploadAreas st)
  /\ (forall j i, j < s + m -> (index <$> uploadAreas st') !! j = Some i -> i = j).
Proof.
  revert s st. induction m as [|m IH]; intros s st Hlen Hidx; simpl.
  - rewrite Nat.add_0_r, app_nil_r. auto.
  - set (st1 := setupUploadArea s s (set_images (images st ++ [None]) st)).
    destruct (IH (S s) st1) as (H1 & H2 & H3).
    + simpl. rewrite length_app. simpl. lia.
    + intros j i Hj. simpl. rewrite list_lookup_fmap.
      destruct (decide (j = s)) as [->|Hne].
      * rewrite list_lookup_alter_eq.
        destruct (uploadAreas st !! s); simpl; congruence.
      * rewrite list_lookup_alter_ne by congruence.
        rewrite <- list_lookup_fmap. apply Hidx. lia.
    + replace (s + S m) with (S s + m) by lia.
      split; [|split; [|exact H3]].
      * rewrite H1. simpl. rewrite <- app_assoc. reflexivity.
      * rewrite H2. simpl. apply length_alter.
Qed.

(** The top level gives every upload area of the page one empty slot. *)
Lemma initialise_images (page : State) :
  images (initialise page) = replicate (length (uploadAreas page)) None.
Proof.
  unfold initialise.
  destruct (initialise_loop (length (uploadAreas page)) 0
              (set_images [] (set_activeTab generate page)))
    as (H1 & _); [reflexivity | intros j i Hj; lia |].
  exact H1.
Qed.

Lemma initialise_indicesInRange (page : State) : indicesInRange (initialise page).
Proof.
  unfold indicesInRange. rewrite initialise_images, length_replicate.
  unfold initialise.
  destruct (initialise_loop (length (uploadAreas page)) 0
              (set_images [] (set_activeTab generate page)))
    as (_ & H2 & H3); [reflexivity | intros j i Hj; lia |].
  simpl in H2, H3.
  apply Forall_lookup. intros j i Hji.
  assert (j < length (uploadAreas page)) as Hj.
  { apply lookup_lt_Some in Hji. rewrite length_fmap, H2 in Hji. exact Hji. }
  rewrite (H3 j i Hj Hji). exact Hj.
Qed.

(** What one listener does to the slots, from a state in which every area's
    index is in range. *)
Lemma dispatch_slots (env : Env) (ev : UiEvent) (st : State) :
  indicesInRange st ->
  slotsStep (images st) (images (final (dispatch env ev st)))
  /\ indicesInRange (final (dispatch env ev st)).
Proof.
  intros Hin. destruct ev; simpl.
  - split; [apply slots_same; destruct st; reflexivity | exact Hin].
  - split; [apply slots_same; destruct st; reflexivity | exact Hin].
  - pose proof (preserves_performGeneration env st) as Hsame.
    split; [apply slots_same, Hsame | exact (sameSlots_indicesInRange _ _ Hsame Hin)].
  - split; [apply slots_same; reflexivity | exact Hin].
  - split; [apply slots_appended; reflexivity | apply addImageClicked_indicesInRange, Hin].
  - split; [apply slots_same; reflexivity | exact Hin].
  - split; [apply fileReceived_slots, Hin | apply fileReceived_indicesInRange, Hin].
  - pose proof (alterArea_sameSlots (set_dragover true) k st (fun _ => eq_refl)) as Hsame.
    split; [apply slots_same, Hsame | exact (sameSlots_indicesInRange _ _ Hsame Hin)].
  - pose proof (alterArea_sameSlots (set_dragover false) k st (fun _ => eq_refl)) as Hsame.
    split; [apply slots_same, Hsame | exact (sameSlots_indicesInRange _ _ Hsame Hin)].
  - pose proof (alterArea_sameSlots (set_dragover false) k st (fun _ => eq_refl)) as Hsame.
    pose proof (sameSlots_indicesInRange _ _ Hsame Hin) as Hin'.
    unfold bind, modify.
    pose proof (fileReceived_slots k file _ Hin') as [Hstep _].
    pose proof (fileReceived_indicesInRange k file _ Hin') as Hin''.
    destruct (fileReceived k file (alterArea (set_dragover false) k st)) as [[c st'] t].
    split; [exact Hstep | exact Hin''].
  - split; [apply slots_same; reflexivity | exact Hin].
  - split; [apply slots_same; reflexivity | exact Hin].
Qed.

Lemma reachable_indicesInRange (st : State) : reachable st -> indicesInRange st.
Proof.
  induction 1 as [page|env ev st c st' t _ IH Hrun].
  - apply initialise_indicesInRange.
  - pose proof (dispatch_slots env ev st IH) as [_ H]. rewrite Hrun in H. exact H.
Qed.

(** ** The primary action, case by case *)

(** [performGeneration] by its exits. *)
Lemma performGeneration_unfold (env : Env) (st : State) :
  performGeneration env st =
  match truthy (API_KEY env) with
  | None => (showStatusError msgNoApiKey ;; openApiKeyDialog env) st
  | Some apiKey =>
      if (populatedSlots st <? 2)%nat && match activeTab st with combine => true | _ => false end
      then showStatusError msgTooFewImages st
      else if String.eqb (Js.trim (activePrompt st)) EmptyString
      then showStatusError
             (match activeTab st with
              | generate => msgNoGeneratePrompt
              | combine => msgNoCombinePrompt
              end) st
      else (writeStatus
              (innerText (match activeTab st with
                          | generate => "Generando imagen..."
                          | combine => "Combinando imágenes..."
                          end)) ;;
            performRequest env apiKey (Js.trim (activePrompt st))) st
  end.
Proof.
  unfold performGeneration, activePrompt, populatedSlots.
  destruct (truthy (API_KEY env)) as [apiKey|]; [|reflexivity].
  unfold bind at 1. unfold gets at 1. simpl.
  destruct (activeTab st).
  - rewrite andb_false_r. unfold bind at 1. unfold gets at 1. simpl.
    destruct (String.eqb _ _); [reflexivity|].
    destruct (bind _ _ st) as [[c st2] t2]. reflexivity.
  - rewrite andb_true_r. unfold bind at 1. unfold gets at 1. simpl.
    unfold bind at 1. unfold gets at 1. simpl.
    destruct (_ <? _)%nat; [reflexivity|].
    destruct (String.eqb _ _); [reflexivity|].
    destruct (bind _ _ st) as [[c st2] t2]. reflexivity.
Qed.

Lemma showStatusError_run (message : string) (st : State) :
  showStatusError message st
  = (Normal tt, set_statusEl (errorStatus message) st,
     [StatusWritten (errorStatus message)]).
Proof. reflexivity. Qed.

Lemma openApiKeyDialog_run (env : Env) (st : State) :
  openApiKeyDialog env st =
  match openSelectKey env with
  | Some settles => (settles, st, [OpenSelectKeyCalled])
  | None => (Normal tt, set_statusEl (errorStatus msgDialogUnavailable) st,
             [StatusWritten (errorStatus msgDialogUnavailable)])
  end.
Proof.
  unfold openApiKeyDialog. destruct (openSelectKey env) as [[[]|e]|]; reflexivity.
Qed.

(** A trigger that stops before the request writes to the status line and
    nowhere else, and reaches the host dialog at most. *)
Lemma stopsBeforeRequest_run (env : Env) (st : State) :
  stopsBeforeRequest env st ->
  exists c status t,
    performGeneration env st = (c, set_statusEl status st, t)
    /\ noNetworkCall t.
Proof.
  intros Hstop. rewrite performGeneration_unfold.
  destruct (truthy (API_KEY env)) as [apiKey|] eqn:Hkey.
  - destruct ((populatedSlots st <? 2)%nat && _) eqn:Hfew.
    { rewrite showStatusError_run. eexists _, _, _. split; [reflexivity|].
      repeat constructor. }
    destruct (String.eqb _ _) eqn:Hprompt.
    { rewrite showStatusError_run. eexists _, _, _. split; [reflexivity|].
      repeat constructor. }
    exfalso. destruct Hstop as [H|[H|[Htab H]]].
    + congruence.
    + apply String.eqb_neq in Hprompt. contradiction.
    + rewrite Htab, andb_true_r in Hfew. apply Nat.ltb_ge in Hfew. lia.
  - unfold bind. rewrite showStatusError_run, openApiKeyDialog_run.
    destruct (openSelectKey env) as [settles|].
    + eexists _, _, _. split; [reflexivity|]. repeat constructor.
    + eexists _, (errorStatus msgDialogUnavailable), _. split; [reflexivity|].
      repeat constructor.
Qed.

(** ** The request, step by step *)

Lemma generateImage_run (env : Env) (prompt apiKey : string) (st : State) :
  generateImage env prompt apiKey st =
  let call := GenerateImagesCalled apiKey (generateImagesRequest prompt) in
  match generateImages env apiKey (generateImagesRequest prompt) with
  | Throw e => (Throw e, st, [call])
  | Normal response =>
      match generatedImages response with
      | Some (first :: _) =>
          (Normal tt,
           set_output (rendered ("data:image/jpeg;base64," +:+ imageBytes (image first))) st,
           [call])
      | _ => (Throw (ErrorObject msgNoImages), st, [call])
      end
  end.
Proof.
  unfold generateImage, bind, emit, await. simpl.
  destruct (generateImages env apiKey (generateImagesRequest prompt)) as [response|e];
    [|reflexivity].
  destruct (generatedImages response) as [[|first others]|]; reflexivity.
Qed.

(** The loop stops at the first part that carries inline data. *)
Lemma scanParts_found (before after : list Part) (part : Part) (inline : Blob)
    (st : State) :
  Forall (fun p => inlineData p = None) before ->
  inlineData part = Some inline ->
  scanParts (before ++ part :: after) st =
  (Normal true,
   set_output (rendered ("data:" +:+ blob_mimeType inline +:+ ";base64," +:+ blob_data inline)) st,
   []).
Proof.
  intros Hbefore Hpart. induction Hbefore as [|p before Hp _ IH]; simpl.
  - rewrite Hpart. reflexivity.
  - rewrite Hp. exact IH.
Qed.

Lemma scanParts_none (ps : list Part) (st : State) :
  Forall (fun p => inlineData p = None) ps ->
  scanParts ps st = (Normal false, st, []).
Proof.
  induction 1 as [|p ps Hp _ IH]; simpl; [reflexivity|]. rewrite Hp. exact IH.
Qed.

Lemma combineImages_run (env : Env) (prompt : string) (imageList : list ImageData)
    (apiKey : string) (st : State) :
  combineImages env prompt imageList apiKey st =
  let call := GenerateContentCalled apiKey (generateContentRequest prompt imageList) in
  match generateContent env apiKey (generateContentRequest prompt imageList) with
  | Throw e => (Throw e, st, [call])
  | Normal response =>
      match candidates response with
      | [] => (Throw (ErrorObject msgUndefinedRead), st, [call])
      | first :: _ =>
          match scanParts (parts (content first)) st with
          | (Normal true, st', t) => (Normal tt, st', call :: t)
          | (Normal false, st', t) =>
              (Throw (ErrorObject msgNoCombinedImage), st', call :: t)
          | (Throw e, st', t) => (Throw e, st', call :: t)
          end
      end
  end.
Proof.
  unfold combineImages. cbv zeta. unfold bind at 1. unfold emit at 1.
  unfold bind at 1. unfold await at 1.
  destruct (generateContent env apiKey (generateContentRequest prompt imageList))
    as [response|e]; [|reflexivity].
  destruct (candidates response) as [|first others]; [reflexivity|].
  unfold bind.
  destruct (scanParts (parts (content first)) st) as [[[[|]|e] st'] t]; simpl;
    rewrite ?app_nil_r; reflexivity.
Qed.

Lemma tryBlock_run (env : Env) (apiKey prompt : string) (st : State) :
  tryBlock env apiKey prompt st =
  match (match activeTab st with
         | generate => generateImage env prompt apiKey st
         | combine => combineImages env prompt (filterNotNull (images st)) apiKey st
         end) with
  | (Normal _, st', t) =>
      (Normal tt, set_statusEl (innerText "Imagen generada con éxito.") st',
       t ++ [StatusWritten (innerText "Imagen generada con éxito.")])
  | (Throw e, st', t) => (Throw e, st', t)
  end.
Proof.
  unfold tryBlock. unfold bind at 1. unfold bind at 1. unfold gets at 1.
  destruct (activeTab st).
  - destruct (generateImage env prompt apiKey st) as [[[[]|e] st'] t];
      reflexivity.
  - unfold bind at 1. unfold gets at 1.
    destruct (combineImages env prompt (filterNotNull (images st)) apiKey st)
      as [[[[]|e] st'] t]; reflexivity.
Qed.

Lemma catchBlock_run (env : Env) (e : JsThrown) (st : State) :
  catchBlock env e st =
  let log := ConsoleError "La generación de imagen falló:" e in
  let shown := errorStatus (classifyError (errorMessageOf e)).1 in
  if (classifyError (errorMessageOf e)).2 then
    match openSelectKey env with
    | Some settles =>
        (settles, set_statusEl shown st, [log; StatusWritten shown; OpenSelectKeyCalled])
    | None =>
        (Normal tt, set_statusEl (errorStatus msgDialogUnavailable) st,
         [log; StatusWritten shown; StatusWritten (errorStatus msgDialogUnavailable)])
    end
  else (Normal tt, set_statusEl shown st, [log; StatusWritten shown]).
Proof.
  unfold catchBlock. cbv zeta.
  destruct (classifyError (errorMessageOf e)) as [userFriendlyMessage [|]]; simpl.
  - unfold bind. unfold emit at 1. rewrite showStatusError_run, openApiKeyDialog_run.
    destruct (openSelectKey env) as [settles|]; reflexivity.
  - reflexivity.
Qed.

Lemma performRequest_run (env : Env) (apiKey prompt : string) (st : State) :
  performRequest env apiKey prompt st =
  let st1 := setControlsDisabled true
               (set_downloadButton_display "none" (set_outputImage_display "none" st)) in
  match tryBlock env apiKey prompt st1 with
  | (Normal _, st2, t2) => (Normal tt, setControlsDisabled false st2, t2)
  | (Throw e, st2, t2) =>
      match catchBlock env e st2 with
      | (c, st3, t3) => (c, setControlsDisabled false st3, t2 ++ t3)
      end
  end.
Proof.
  unfold performRequest. do 3 (unfold bind at 1; unfold modify at 1).
  unfold try_catch_finally. cbv zeta. simpl.
  destruct (tryBlock env apiKey prompt _) as [[[[]|e] st2] t2]; simpl.
  - rewrite app_nil_r. reflexivity.
  - destruct (catchBlock env e st2) as [[c st3] t3]. simpl.
    rewrite app_nil_r. reflexivity.
Qed.

Lemma setControlsDisabled_false_enabled (st : State) :
  controlsEnabled (setControlsDisabled false st).
Proof.
  split; [reflexivity|]. simpl. apply Forall_fmap. apply Forall_true.
  intros area. reflexivity.
Qed.

(** A request whose remote call rejects: the handler runs on the state the
    request started in, with the output hidden and the controls disabled. *)
Lemma performRequest_rejected (env : Env) (apiKey prompt : string) (st : State)
    (e : JsThrown) :
  remoteRejects env st apiKey prompt e ->
  performRequest env apiKey prompt st =
  let st1 := setControlsDisabled true
               (set_downloadButton_display "none" (set_outputImage_display "none" st)) in
  match catchBlock env e st1 with
  | (c, st3, t3) => (c, setControlsDisabled false st3, networkCallOf st apiKey prompt :: t3)
  end.
Proof.
  intros Hrej. rewrite performRequest_run. cbv zeta. rewrite tryBlock_run.
  unfold remoteRejects, networkCallOf in *. simpl.
  destruct (activeTab st).
  - rewrite generateImage_run, Hrej. reflexivity.
  - rewrite combineImages_run. simpl. rewrite Hrej. reflexivity.
Qed.

Lemma classifyError_notFound (m : string) :
  contains m "Requested entity was not found." ->
  classifyError m = (msgModelNotFound, true).
Proof.
  intros H. apply includes_spec in H. unfold classifyError. rewrite H. reflexivity.
Qed.

Lemma classifyError_invalid (m : string) :
  ~ contains m "Requested entity was not found." ->
  contains m "API_KEY_INVALID" \/ contains m "API key not valid"
    \/ containsIgnoringCase m "permission denied" ->
  classifyError m = (msgInvalidKey, true).
Proof.
  intros Hnf H. apply includes_false in Hnf. unfold classifyError. rewrite Hnf.
  rewrite <- !includes_spec, <- includes_toLowerCase_spec in H.
  destruct H as [->| [->| ->]]; rewrite ?orb_true_r; reflexivity.
Qed.

Lemma classifyError_other (m : string) :
  ~ contains m "Requested entity was not found." ->
  ~ contains m "API_KEY_INVALID" ->
  ~ contains m "API key not valid" ->
  ~ containsIgnoringCase m "permission denied" ->
  classifyError m = ("Error: " +:+ m, false).
Proof.
  intros H1 H2 H3 H4. apply includes_false in H1, H2, H3.
  rewrite <- includes_toLowerCase_spec in H4. apply not_true_is_false in H4.
  unfold classifyError. rewrite H1, H2, H3, H4. reflexivity.
Qed.

(** After a rejected call whose message gets a tailored text and the dialog:
    what the handler leaves behind. *)
Lemma rejected_with_dialog (env : Env) (apiKey prompt : string) (st : State)
    (e : JsThrown) (message : string) :
  remoteRejects env st apiKey prompt e ->
  classifyError (errorMessageOf e) = (message, true) ->
  dialogAttempted env message (performRequest env apiKey prompt st).
Proof.
  intros Hrej Hclass. rewrite (performRequest_rejected _ _ _ _ _ Hrej).
  cbv zeta. rewrite catchBlock_run, Hclass. cbv zeta. simpl.
  unfold dialogAttempted.
  destruct (openSelectKey env) as [settles|]; unfold trace, final; simpl.
  - split; [do 2 right; left; reflexivity|].
    split; [intros _ | intros H; discriminate H].
    split; [do 3 right; left; reflexivity | reflexivity].
  - split; [do 2 right; left; reflexivity|].
    split; [intros H; contradiction | intros _].
    split; [|reflexivity].
    intros [H|[H|[H|[H|[]]]]]; try discriminate H.
    unfold networkCallOf in H. destruct (activeTab st); discriminate H.
Qed.

(** ** The properties *)

(** *** Failure handling *)

(** C1, as amended.  For every rejected remote call the handler classifies
    the error message by substring.  When it contains the not-found phrase
    the model-not-found message is written to the status line and
    [openApiKeyDialog] runs; otherwise, when it contains one of the two
    invalid-key phrases, or the permission phrase up to case, the
    invalid-credential message is written and [openApiKeyDialog] runs.  In
    both cases a host that exposes the key-selection dialog has it invoked
    and the message stays on show, and on a host without the dialog the
    status ends as the fallback message.  For every other message the status
    shows the raw message after the label for errors, and the dialog is not
    invoked. *)
Theorem remote_failure_classified (env : Env) (apiKey prompt : string)
    (st : State) (e : JsThrown) :
  remoteRejects env st apiKey prompt e ->
  let message := errorMessageOf e in
  let run := performRequest env apiKey prompt st in
  (contains message "Requested entity was not found." ->
   dialogAttempted env msgModelNotFound run)
  /\ (~ contains message "Requested entity was not found." ->
      contains message "API_KEY_INVALID" \/ contains message "API key not valid"
        \/ containsIgnoringCase message "permission denied" ->
      dialogAttempted env msgInvalidKey run)
  /\ (~ contains message "Requested entity was not found." ->
      ~ contains message "API_KEY_INVALID" ->
      ~ contains message "API key not valid" ->
      ~ containsIgnoringCase message "permission denied" ->
      statusEl (final run) = errorStatus ("Error: " +:+ message)
      /\ ~ In OpenSelectKeyCalled (trace run)).
Proof.
  intros Hrej message run. split; [|split].
  - intros H. apply (rejected_with_dialog _ _ _ _ e); [exact Hrej|].
    apply classifyError_notFound, H.
  - intros Hnf H. apply (rejected_with_dialog _ _ _ _ e); [exact Hrej|].
    apply classifyError_invalid; assumption.
  - intros H1 H2 H3 H4. subst run.
    rewrite (performRequest_rejected _ _ _ _ _ Hrej). cbv zeta.
    rewrite catchBlock_run. fold message.
    rewrite (classifyError_other message H1 H2 H3 H4). simpl.
    split; [reflexivity|]. unfold trace. simpl.
    intros [H|[H|[H|[]]]]; try discriminate H.
    unfold networkCallOf in H. destruct (activeTab st); discriminate H.
Qed.

(** An instance of C1: the message carries the invalid-key phrase and the
    host exposes the dialog. *)
Lemma remote_failure_classified_witness :
  let e := ErrorObject "400 API key not valid. Please pass a valid API key." in
  let env := Sample.failing e (Some (Normal tt)) in
  let st := Sample.withPrompt "a red fox" in
  remoteRejects env st "k-123" "a red fox" e
  /\ dialogAttempted env msgInvalidKey (performRequest env "k-123" "a red fox" st).
Proof.
  intros e env st.
  assert (remoteRejects env st "k-123" "a red fox" e) as Hrej by reflexivity.
  split; [exact Hrej|].
  refine (proj1 (proj2 (remote_failure_classified env "k-123" "a red fox" st e Hrej)) _ _).
  - apply includes_false. vm_compute. reflexivity.
  - right. left. apply includes_spec. vm_compute. reflexivity.
Defined.

(** C1 as stated fails on a host without the key-selection dialog: after a
    rejection that carries the invalid-key phrase, the status does not show
    the invalid-credential message and no dialog has been invoked. *)
Lemma invalid_key_without_host_dialog :
  let e := ErrorObject "400 API key not valid. Please pass a valid API key." in
  let env := Sample.failing e None in
  let st := Sample.withPrompt "a red fox" in
  let run := performGeneration env st in
  remoteRejects env st "k-123" "a red fox" e
  /\ Js.includes (errorMessageOf e) "API key not valid" = true
  /\ statusEl (final run) = errorStatus msgDialogUnavailable
  /\ statusEl (final run) <> errorStatus msgInvalidKey
  /\ ~ In OpenSelectKeyCalled (trace run).
Proof.
  intros e env st run. split; [reflexivity|]. split; [vm_compute; reflexivity|].
  split; [reflexivity|]. split.
  - vm_compute. intros H. discriminate H.
  - vm_compute. intros H. repeat (destruct H as [H|H]; [discriminate H|]). exact H.
Qed.

(** C5.  When the credential is absent (or empty), a trigger of the primary
    action writes the configuration-missing message to the status line, then
    runs [openApiKeyDialog] (the host dialog is invoked when the host exposes
    it, and the fallback message is written when it does not), and makes no
    network call. *)
Theorem missing_credential_stops (env : Env) (st : State) :
  truthy (API_KEY env) = None ->
  let run := performGeneration env st in
  noNetworkCall (trace run)
  /\ (forall settles, openSelectKey env = Some settles ->
      run = (settles, set_statusEl (errorStatus msgNoApiKey) st,
             [StatusWritten (errorStatus msgNoApiKey); OpenSelectKeyCalled]))
  /\ (openSelectKey env = None ->
      run = (Normal tt, set_statusEl (errorStatus msgDialogUnavailable) st,
             [StatusWritten (errorStatus msgNoApiKey);
              StatusWritten (errorStatus msgDialogUnavailable)])).
Proof.
  intros Hkey run. subst run. rewrite performGeneration_unfold, Hkey.
  unfold bind. rewrite showStatusError_run, openApiKeyDialog_run.
  destruct (openSelectKey env) as [settles|]; simpl.
  - split; [repeat constructor|]. split; [|intros H; discriminate H].
    intros settles' H. injection H as <-. reflexivity.
  - split; [repeat constructor|]. split; [intros settles' H; discriminate H|].
    intros _. reflexivity.
Qed.

(** An instance of C5: no credential, generate mode, prompt typed in, no
    host dialog. *)
Lemma missing_credential_stops_witness :
  let env := Sample.noKey None in
  let st := Sample.withPrompt "a red fox" in
  truthy (API_KEY env) = None
  /\ noNetworkCall (trace (performGeneration env st)).
Proof.
  intros env st. split; [reflexivity|].
  exact (proj1 (missing_credential_stops env st eq_refl)).
Defined.

(** *** Validation *)

(** C2, as amended.  In combine mode, for every state with fewer than two
    populated slots, a trigger of the primary action makes no network call;
    and when the credential is present it writes the slot validation message
    and ends there, whatever the prompt holds: the slots are checked before
    the prompt. *)
Theorem too_few_images_stops (env : Env) (st : State) :
  activeTab st = combine ->
  populatedSlots st < 2 ->
  let run := performGeneration env st in
  noNetworkCall (trace run)
  /\ (forall apiKey, truthy (API_KEY env) = Some apiKey ->
      run = (Normal tt, set_statusEl (errorStatus msgTooFewImages) st,
             [StatusWritten (errorStatus msgTooFewImages)])).
Proof.
  intros Htab Hfew run. subst run. rewrite performGeneration_unfold.
  destruct (truthy (API_KEY env)) as [apiKey|].
  - rewrite Htab. apply Nat.ltb_lt in Hfew. rewrite Hfew. simpl.
    split; [repeat constructor|]. intros apiKey' _. reflexivity.
  - unfold bind. rewrite showStatusError_run, openApiKeyDialog_run.
    split; [|intros apiKey H; discriminate H].
    destruct (openSelectKey env); repeat constructor.
Qed.

(** An instance of C2: one populated slot and a prompt that is not empty. *)
Lemma too_few_images_stops_witness :
  let env := Sample.world None [] in
  let st := set_promptCombineEl_value "merge these"
              (onImageLoaded 0 Sample.cat (switchTab combine Sample.start)) in
  populatedSlots st = 1
  /\ statusEl (final (performGeneration env st)) = errorStatus msgTooFewImages.
Proof.
  intros env st. split; [reflexivity|].
  assert (populatedSlots st < 2) as Hfew by (vm_compute; lia).
  rewrite (proj2 (too_few_images_stops env st eq_refl Hfew) "k-123" eq_refl).
  reflexivity.
Defined.

(** C2 as stated fails when the credential is absent: in combine mode with
    no populated slot the status shows the configuration-missing message,
    which is none of the validation messages. *)
Lemma too_few_images_without_credential :
  let env := Sample.noKey (Some (Normal tt)) in
  let st := set_promptCombineEl_value "merge these" (switchTab combine Sample.start) in
  let run := performGeneration env st in
  activeTab st = combine
  /\ populatedSlots st = 0
  /\ statusEl (final run) = errorStatus msgNoApiKey
  /\ ~ validationStatus (statusEl (final run)).
Proof.
  intros env st run. repeat (split; [reflexivity|]).
  vm_compute. intros [H|[H|H]]; discriminate H.
Qed.

(** C7, as amended.  For every empty or white-space-only prompt, in either
    mode (with at least two populated slots in combine mode), a trigger of
    the primary action makes no network call; and when the credential is
    present it writes the prompt validation message of the mode and ends
    there. *)
Theorem blank_prompt_stops (env : Env) (st : State) :
  Js.WhiteSpaceOnly (activePrompt st) ->
  (activeTab st = combine -> 2 <= populatedSlots st) ->
  let run := performGeneration env st in
  let message := match activeTab st with
                 | generate => msgNoGeneratePrompt
                 | combine => msgNoCombinePrompt
                 end in
  noNetworkCall (trace run)
  /\ (forall apiKey, truthy (API_KEY env) = Some apiKey ->
      run = (Normal tt, set_statusEl (errorStatus message) st,
             [StatusWritten (errorStatus message)])).
Proof.
  intros Hblank Hslots run message. subst run message.
  rewrite performGeneration_unfold.
  destruct (truthy (API_KEY env)) as [apiKey|].
  - rewrite (trim_WhiteSpaceOnly _ Hblank).
    assert ((populatedSlots st <? 2)%nat
            && match activeTab st with combine => true | _ => false end = false) as ->.
    { destruct (activeTab st); [apply andb_false_r|].
      rewrite andb_true_r. apply Nat.ltb_ge. apply Hslots. reflexivity. }
    simpl. split; [repeat constructor|]. intros apiKey' _. reflexivity.
  - unfold bind. rewrite showStatusError_run, openApiKeyDialog_run.
    split; [|intros apiKey H; discriminate H].
    destruct (openSelectKey env); repeat constructor.
Qed.

(** An instance of C7: generate mode, a prompt of a space, a tab and a
    no-break space. *)
Lemma blank_prompt_stops_witness :
  let env := Sample.world None [] in
  let st := Sample.withPrompt (String " " (String "009" (String "194" (String "160" EmptyString)))) in
  statusEl (final (performGeneration env st)) = errorStatus msgNoGeneratePrompt.
Proof.
  intros env st.
  assert (Js.WhiteSpaceOnly (activePrompt st)) as Hblank.
  { apply Js.wso_one; [reflexivity|]. apply Js.wso_one; [reflexivity|].
    apply Js.wso_two; [reflexivity|]. apply Js.wso_empty. }
  assert (activeTab st = combine -> 2 <= populatedSlots st) as Hslots.
  { intros H. discriminate H. }
  rewrite (proj2 (blank_prompt_stops env st Hblank Hslots) "k-123" eq_refl).
  reflexivity.
Defined.

(** C7 as stated fails when the credential is absent: with an empty prompt
    in generate mode the status shows the configuration-missing message,
    which is none of the validation messages. *)
Lemma blank_prompt_without_credential :
  let env := Sample.noKey (Some (Normal tt)) in
  let st := Sample.withPrompt "   " in
  let run := performGeneration env st in
  activeTab st = generate
  /\ Js.trim (activePrompt st) = EmptyString
  /\ statusEl (final run) = errorStatus msgNoApiKey
  /\ ~ validationStatus (statusEl (final run)).
Proof.
  intros env st run. repeat (split; [reflexivity|]).
  vm_compute. intros [H|[H|H]]; discriminate H.
Qed.

(** C10.  When the trigger stops before the request (missing credential,
    empty prompt, or fewer than two populated slots in combine mode), the
    output image, the download control, the controls and the upload areas
    are left as they were; an output image that was on show stays on show. *)
Theorem stop_keeps_output (env : Env) (st : State) :
  stopsBeforeRequest env st ->
  let run := performGeneration env st in
  output (final run) = output st
  /\ controls (final run) = controls st
  /\ uploadAreas (final run) = uploadAreas st
  /\ (visible (outputImage_display (output st)) ->
      visible (outputImage_display (output (final run))))
  /\ (visible (downloadButton_display (output st)) ->
      visible (downloadButton_display (output (final run)))).
Proof.
  intros Hstop run. subst run.
  destruct (stopsBeforeRequest_run env st Hstop) as (c & status & t & -> & _).
  unfold final. simpl. repeat split; tauto.
Qed.

(** An instance of C10: an earlier image is on show, the prompt is empty. *)
Lemma stop_keeps_output_witness :
  let env := Sample.world None [] in
  let st := Sample.shown (Sample.withPrompt EmptyString) in
  stopsBeforeRequest env st
  /\ visible (outputImage_display (output (final (performGeneration env st)))).
Proof.
  intros env st.
  assert (stopsBeforeRequest env st) as Hstop by (right; left; reflexivity).
  split; [exact Hstop|].
  apply (proj1 (proj2 (proj2 (proj2 (stop_keeps_output env st Hstop))))).
  reflexivity.
Defined.

(** *** The two remote operations *)

(** C4.  For every generate-mode request whose remote call answers: with no
    result list or an empty one, [generateImage] throws the no-image error,
    the request reports it, and neither the output image nor the download
    control is on show afterwards; with at least one result, the first
    result's bytes are rendered as a data URL of JPEG content type, and the
    output image and the download control are both on show. *)
Theorem generate_outcome (env : Env) (apiKey prompt : string) (st : State)
    (response : GenerateImagesResponse) :
  activeTab st = generate ->
  generateImages env apiKey (generateImagesRequest prompt) = Normal response ->
  let call := GenerateImagesCalled apiKey (generateImagesRequest prompt) in
  let run := performRequest env apiKey prompt st in
  match generatedImages response with
  | Some (first :: _) =>
      let url := "data:image/jpeg;base64," +:+ imageBytes (image first) in
      generateImage env prompt apiKey st = (Normal tt, set_output (rendered url) st, [call])
      /\ completion run = Normal tt
      /\ output (final run) = rendered url
      /\ visible (outputImage_display (output (final run)))
      /\ visible (downloadButton_display (output (final run)))
  | _ =>
      generateImage env prompt apiKey st = (Throw (ErrorObject msgNoImages), st, [call])
      /\ statusEl (final run) = errorStatus ("Error: " +:+ msgNoImages)
      /\ ~ visible (outputImage_display (output (final run)))
      /\ ~ visible (downloadButton_display (output (final run)))
  end.
Proof.
  intros Htab Hresponse call run. subst run call.
  rewrite performRequest_run. cbv zeta. rewrite tryBlock_run. simpl.
  rewrite Htab. rewrite !generateImage_run. cbv zeta. rewrite Hresponse.
  destruct (generatedImages response) as [[|first others]|].
  - split; [reflexivity|]. rewrite catchBlock_run.
    split; [reflexivity|]. split; intros H; discriminate H.
  - repeat split; reflexivity.
  - split; [reflexivity|]. rewrite catchBlock_run.
    split; [reflexivity|]. split; intros H; discriminate H.
Qed.

(** An instance of C4: the remote service returns one image. *)
Lemma generate_outcome_witness :
  let env := Sample.world (Some [ {| image := {| imageBytes := "QUJD" |} |} ]) [] in
  let st := Sample.withPrompt "a castle at sunset" in
  output (final (performRequest env "k-123" "a castle at sunset" st))
  = rendered "data:image/jpeg;base64,QUJD".
Proof.
  intros env st.
  exact (proj1 (proj2 (proj2
    (generate_outcome env "k-123" "a castle at sunset" st
       {| generatedImages := Some [ {| image := {| imageBytes := "QUJD" |} |} ] |}
       eq_refl eq_refl)))).
Defined.

(** C3.  For every answer to a combine call that has a first candidate:
    when some part of that candidate carries inline image data and no part
    before it does, [combineImages] renders that part, with its own MIME
    type and bytes, whatever the parts after it are; when no part carries
    inline image data, [combineImages] throws the no-combined-image error
    and renders nothing. *)
Theorem combine_renders_first_image (env : Env) (prompt : string)
    (imageList : list ImageData) (apiKey : string) (st : State)
    (response : GenerateContentResponse) (first : Candidate)
    (others : list Candidate) :
  generateContent env apiKey (generateContentRequest prompt imageList) = Normal response ->
  candidates response = first :: others ->
  let call := GenerateContentCalled apiKey (generateContentRequest prompt imageList) in
  let run := combineImages env prompt imageList apiKey st in
  (forall before part after inline,
      parts (content first) = before ++ part :: after ->
      Forall (fun p => inlineData p = None) before ->
      inlineData part = Some inline ->
      run = (Normal tt,
             set_output
               (rendered ("data:" +:+ blob_mimeType inline +:+ ";base64," +:+ blob_data inline))
               st,
             [call]))
  /\ (Forall (fun p => inlineData p = None) (parts (content first)) ->
      run = (Throw (ErrorObject msgNoCombinedImage), st, [call])).
Proof.
  intros Hresponse Hfirst call run. subst run call.
  rewrite combineImages_run. cbv zeta. rewrite Hresponse, Hfirst. split.
  - intros before part after inline Hparts Hbefore Hpart.
    rewrite Hparts, (scanParts_found before after part inline st Hbefore Hpart).
    reflexivity.
  - intros Hnone. rewrite (scanParts_none _ st Hnone). reflexivity.
Qed.

(** An instance of C3: a text part, then an image part, then another image
    part; the first image part is the one rendered. *)
Lemma combine_renders_first_image_witness :
  let ps := [Sample.textPart "Here it is"; Sample.imagePart "image/png" "UE5H";
             Sample.imagePart "image/gif" "R0lG"] in
  let env := Sample.world None ps in
  let st := Sample.twoImages "merge these" in
  output (final (combineImages env "merge these" [Sample.cat; Sample.dog] "k-123" st))
  = rendered "data:image/png;base64,UE5H".
Proof.
  intros ps env st.
  assert (Forall (fun p => inlineData p = None) [Sample.textPart "Here it is"])
    as Hbefore by (repeat constructor).
  rewrite (proj1
    (combine_renders_first_image env "merge these" [Sample.cat; Sample.dog] "k-123" st
       {| candidates := [ {| content := {| parts := ps |} |} ] |}
       {| content := {| parts := ps |} |} [] eq_refl eq_refl)
    [Sample.textPart "Here it is"] (Sample.imagePart "image/png" "UE5H")
    [Sample.imagePart "image/gif" "R0lG"]
    {| blob_mimeType := "image/png"; blob_data := "UE5H" |}
    eq_refl Hbefore eq_refl).
  reflexivity.
Defined.

(** *** Cleanup *)

(** C6.  Every request that starts ends with all controls enabled, however
    the remote call, the rendering and the failure handling complete: the
    request taken from the point where validation has passed, and the whole
    trigger whenever it does not stop before the request. *)
Theorem controls_reenabled (env : Env) (st : State) :
  (forall apiKey prompt, controlsEnabled (final (performRequest env apiKey prompt st)))
  /\ (~ stopsBeforeRequest env st ->
      controlsEnabled (final (performGeneration env st))).
Proof.
  assert (forall apiKey prompt st0,
             controlsEnabled (final (performRequest env apiKey prompt st0))) as Hreq.
  { intros apiKey prompt st0. rewrite performRequest_run. cbv zeta.
    destruct (tryBlock env apiKey prompt _) as [[[[]|e] st2] t2].
    - apply setControlsDisabled_false_enabled.
    - destruct (catchBlock env e st2) as [[c st3] t3].
      apply setControlsDisabled_false_enabled. }
  split; [intros apiKey prompt; apply Hreq|].
  intros Hgo. rewrite performGeneration_unfold.
  destruct (truthy (API_KEY env)) as [apiKey|] eqn:Hkey;
    [|exfalso; apply Hgo; left; exact Hkey].
  destruct ((populatedSlots st <? 2)%nat && _) eqn:Hfew.
  { exfalso. apply Hgo. right. right. apply andb_true_iff in Hfew as [Hlt Htab].
    apply Nat.ltb_lt in Hlt. destruct (activeTab st); [discriminate Htab|]. auto. }
  destruct (String.eqb _ _) eqn:Hprompt.
  { exfalso. apply Hgo. right. left. apply String.eqb_eq. exact Hprompt. }
  unfold bind at 1. unfold writeStatus at 1. unfold bind at 1. simpl.
  match goal with
  | |- context [performRequest env apiKey ?p ?s] =>
      specialize (Hreq apiKey p s);
      destruct (performRequest env apiKey p s) as [[c st'] t]
  end.
  exact Hreq.
Qed.

(** An instance of C6: the remote call rejects, and then the host dialog
    rejects as well, so the trigger itself ends by throwing; the controls
    are enabled all the same. *)
Lemma controls_reenabled_witness :
  let e := ErrorObject "API_KEY_INVALID" in
  let env := Sample.failing e (Some (Throw (OtherValue "dialog closed"))) in
  let st := Sample.withPrompt "a red fox" in
  completion (performGeneration env st) = Throw (OtherValue "dialog closed")
  /\ controlsEnabled (final (performGeneration env st)).
Proof.
  intros e env st. split; [reflexivity|].
  apply (proj2 (controls_reenabled env st)).
  intros [H|[H|[H _]]]; discriminate H.
Defined.

(** *** Tabs *)

(** C8.  A tab switch sets the active mode and the presentation (tab
    styles, panels, label of the primary action) and nothing else: the slot
    sequence, both prompt texts, the controls, the output and the status are
    as before.  Switching to a mode twice is the same as switching to it
    once, and no sequence of tab switches changes the slots or the
    prompts. *)
Theorem switchTab_keeps_inputs (tab : Tab) (st : State) :
  let st' := switchTab tab st in
  activeTab st' = tab
  /\ images st' = images st
  /\ promptGenerateEl_value st' = promptGenerateEl_value st
  /\ promptCombineEl_value st' = promptCombineEl_value st
  /\ controls st' = controls st
  /\ output st' = output st
  /\ statusEl st' = statusEl st
  /\ uploadAreas st' = uploadAreas st
  /\ switchTab tab st' = st'
  /\ (forall tabs,
        let st'' := foldl (fun s t => switchTab t s) st tabs in
        images st'' = images st
        /\ promptGenerateEl_value st'' = promptGenerateEl_value st
        /\ promptCombineEl_value st'' = promptCombineEl_value st).
Proof.
  cbv zeta. repeat (split; [destruct tab; reflexivity|]).
  intros tabs. revert st. induction tabs as [|t tabs IH]; intros st.
  - repeat split.
  - simpl. destruct (IH (switchTab t st)) as (H1 & H2 & H3).
    rewrite H1, H2, H3. destruct t; repeat split.
Qed.

(** *** Slots *)

(** C9.  The top level of the script starts the slot sequence with one
    empty slot per upload area of the page.  From then on, in every state
    the page can reach, each listener leaves the sequence as it was, or
    appends one empty slot, or replaces the value at an index the sequence
    already has; so the sequence never gets shorter, neither in one step nor
    over any sequence of events. *)
Theorem slots_never_shrink (env : Env) (ev : UiEvent) (st : State) :
  reachable st ->
  slotsStep (images st) (images (final (dispatch env ev st)))
  /\ length (images st) <= length (images (final (dispatch env ev st)))
  /\ (forall evs, length (images st) <= length (images (runEvents evs st)))
  /\ (forall page, images (initialise page) = replicate (length (uploadAreas page)) None).
Proof.
  intros Hreach.
  pose proof (dispatch_slots env ev st (reachable_indicesInRange st Hreach)) as [Hstep _].
  split; [exact Hstep|]. split; [apply slotsStep_length, Hstep|].
  split; [|apply initialise_images].
  intros evs. apply reachable_indicesInRange in Hreach. clear Hstep.
  unfold runEvents.
  revert st Hreach. induction evs as [|[env' ev'] evs IH]; intros st Hin; simpl.
  - lia.
  - destruct (dispatch_slots env' ev' st Hin) as [Hstep Hin'].
    apply slotsStep_length in Hstep. specialize (IH _ Hin').
    etrans; [exact Hstep | exact IH].
Qed.

(** An instance of C9: on the sample page, a file arrives at the second
    upload area. *)
Lemma slots_never_shrink_witness :
  let env := Sample.world None [] in
  let ev := FileChange 1 (Some (Normal Sample.dog)) in
  reachable Sample.start
  /\ images (final (dispatch env ev Sample.start)) = [None; Some Sample.dog]
  /\ slotsStep (images Sample.start) (images (final (dispatch env ev Sample.start))).
Proof.
  intros env ev.
  assert (reachable Sample.start) as Hreach by apply reachable_init.
  split; [exact Hreach|]. split; [reflexivity|].
  exact (proj1 (slots_never_shrink env ev Sample.start Hreach)).
Defined.

(** ** Runs of the scenarios *)

Example trim_prompt : Js.trim "  a red fox 	" = "a red fox".
Proof. reflexivity. Qed.

Example permission_phrase_any_case :
  Js.includes (Js.toLowerCase "403 PERMISSION Denied.") "permission denied" = true.
Proof. reflexivity. Qed.

(** Generate mode, one image returned. *)
Example scenario_generate :
  let env := Sample.world (Some [ {| image := {| imageBytes := "QUJD" |} |} ]) [] in
  let run := performGeneration env (Sample.withPrompt "a castle at sunset") in
  completion run = Normal tt
  /\ output (final run) = rendered "data:image/jpeg;base64,QUJD"
  /\ statusEl (final run) = innerText "Imagen generada con éxito."
  /\ trace run = [StatusWritten (innerText "Generando imagen...");
                  GenerateImagesCalled "k-123" (generateImagesRequest "a castle at sunset");
                  StatusWritten (innerText "Imagen generada con éxito.")].
Proof. repeat split; reflexivity. Qed.

(** Combine mode, two populated slots, a text part followed by an image
    part in the answer. *)
Example scenario_combine :
  let env := Sample.world None [Sample.textPart "Done"; Sample.imagePart "image/png" "UE5H"] in
  let run := performGeneration env (Sample.twoImages "merge these") in
  completion run = Normal tt
  /\ output (final run) = rendered "data:image/png;base64,UE5H"
  /\ statusEl (final run) = innerText "Imagen generada con éxito.".
Proof. repeat split; reflexivity. Qed.

(** Credential absent, generate mode, host dialog exposed. *)
Example scenario_no_credential :
  let run := performGeneration (Sample.noKey (Some (Normal tt))) (Sample.withPrompt "a red fox") in
  statusEl (final run) = errorStatus msgNoApiKey
  /\ trace run = [StatusWritten (errorStatus msgNoApiKey); OpenSelectKeyCalled]
  /\ output (final run) = output Sample.start.
Proof. repeat split; reflexivity. Qed.

(** The answer has no candidate at all: reading the first one throws, and
    the request reports that error. *)
Example scenario_no_candidate :
  let env := {| API_KEY := Some "k-123"; openSelectKey := None;
                generateImages := fun _ _ => Normal {| generatedImages := None |};
                generateContent := fun _ _ => Normal {| candidates := [] |} |} in
  let run := performGeneration env (Sample.twoImages "merge these") in
  statusEl (final run) = errorStatus ("Error: " +:+ msgUndefinedRead)
  /\ controlsEnabled (final run).
Proof. split; [reflexivity|]. split; [reflexivity|]. repeat constructor. Qed.

(** ** Further properties of the script *)

(** *** What the primary action leaves alone *)

Section KeptByPrimaryAction.

Context (R : State -> State -> Prop) `{!PreOrder R}.
Hypothesis keeps_status : forall c st, R st (set_statusEl c st).
Hypothesis keeps_output : forall o st, R st (set_output o st).
Hypothesis keeps_controls : forall disabled st, R st (setControlsDisabled disabled st).

(** One step of a proof that a computation keeps [R]. *)
Ltac keep_step :=
  cbv zeta;
  first
    [ assumption
    | apply (preserves_ret R)
    | apply (preserves_throw R)
    | apply (preserves_emit R)
    | apply (preserves_gets R)
    | apply (preserves_await R)
    | apply (preserves_modify R); intros ?;
      first [ apply keeps_status | apply keeps_output | apply keeps_controls ]
    | apply (preserves_bind R); [| intros ?]
    | apply (preserves_try_catch_finally R); [| intros ? |] ].

Lemma kept_writeStatus (c : StatusContent) : preserves R (writeStatus c).
Proof. unfold writeStatus. repeat keep_step. Qed.

Lemma kept_openApiKeyDialog (env : Env) : preserves R (openApiKeyDialog env).
Proof.
  unfold openApiKeyDialog. destruct (openSelectKey env).
  - repeat keep_step.
  - apply kept_writeStatus.
Qed.

Lemma kept_generateImage (env : Env) (prompt apiKey : string) :
  preserves R (generateImage env prompt apiKey).
Proof.
  unfold generateImage. cbv zeta.
  apply (preserves_bind R); [keep_step|]. intros _.
  apply (preserves_bind R); [keep_step|]. intros response.
  destruct (generatedImages response) as [[|first others]|]; repeat keep_step.
Qed.

Lemma kept_scanParts (ps : list Part) : preserves R (scanParts ps).
Proof.
  induction ps as [|part rest IH]; simpl; [keep_step|].
  destruct (inlineData part); [repeat keep_step | exact IH].
Qed.

Lemma kept_combineImages (env : Env) (prompt : string)
    (imageList : list ImageData) (apiKey : string) :
  preserves R (combineImages env prompt imageList apiKey).
Proof.
  unfold combineImages. cbv zeta.
  apply (preserves_bind R); [keep_step|]. intros _.
  apply (preserves_bind R); [keep_step|]. intros response.
  destruct (candidates response) as [|first others]; [keep_step|].
  apply (preserves_bind R); [apply kept_scanParts|].
  intros [|]; keep_step.
Qed.

Lemma kept_performRequest (env : Env) (apiKey prompt : string) :
  preserves R (performRequest env apiKey prompt).
Proof.
  unfold performRequest.
  do 3 (apply (preserves_bind R); [keep_step|]; intros _).
  apply (preserves_try_catch_finally R).
  - unfold tryBlock. apply (preserves_bind R); [|intros _; apply kept_writeStatus].
    apply (preserves_bind R); [keep_step|]. intros [|].
    + apply kept_generateImage.
    + apply (preserves_bind R); [keep_step|]. intros imgs. apply kept_combineImages.
  - intros e. unfold catchBlock. apply (preserves_bind R); [keep_step|]. intros _.
    destruct (classifyError (errorMessageOf e)) as [userFriendlyMessage [|]].
    + apply (preserves_bind R); [apply kept_writeStatus|]. intros _.
      apply kept_openApiKeyDialog.
    + apply (preserves_bind R); [apply kept_writeStatus|]. intros _. keep_step.
  - keep_step.
Qed.

(** A relation kept by every write to the status line, to the output and to
    the controls is kept by the whole primary action. *)
Lemma kept_performGeneration (env : Env) : preserves R (performGeneration env).
Proof.
  unfold performGeneration. destruct (truthy (API_KEY env)) as [apiKey|].
  - apply (preserves_bind R); [keep_step|]. intros [|].
    + apply (preserves_bind R); [keep_step|]. intros value. cbv zeta.
      destruct (String.eqb _ _); [apply kept_writeStatus|].
      apply (preserves_bind R); [apply kept_writeStatus|]. intros _.
      apply kept_performRequest.
    + apply (preserves_bind R); [keep_step|]. intros value.
      apply (preserves_bind R); [keep_step|]. intros imgs. cbv zeta.
      destruct (_ <? _)%nat; [apply kept_writeStatus|].
      destruct (String.eqb _ _); [apply kept_writeStatus|].
      apply (preserves_bind R); [apply kept_writeStatus|]. intros _.
      apply kept_performRequest.
  - apply (preserves_bind R); [apply kept_writeStatus|]. intros _.
    apply kept_openApiKeyDialog.
Qed.

End KeptByPrimaryAction.

#[local] Instance sameInputs_preorder : PreOrder sameInputs.
Proof.
  split.
  - intros st. repeat split.
  - intros st1 st2 st3 (H1 & H2 & H3 & H4 & H5 & H6) (K1 & K2 & K3 & K4 & K5 & K6).
    repeat split; congruence.
Qed.

Lemma set_pointerEvents_twice (s s' : string) (areas : list UploadArea) :
  set_pointerEvents s <$> (set_pointerEvents s' <$> areas) = set_pointerEvents s <$> areas.
Proof.
  induction areas as [|area areas IH]; [reflexivity|]. simpl. f_equal. exact IH.
Qed.

Lemma setControlsDisabled_sameInputs (disabled : bool) (st : State) :
  sameInputs st (setControlsDisabled disabled st).
Proof.
  repeat (split; [reflexivity|]). simpl. apply set_pointerEvents_twice.
Qed.

(** X1.  Whatever the environment does, a trigger of the primary action
    leaves the active mode, the slots, both prompt texts and the
    presentation of the tabs as they were, and changes nothing of an upload
    area but its [pointerEvents]: no image and no prompt is ever cleared or
    rewritten by a request, successful or not. *)
Theorem primary_action_keeps_inputs (env : Env) (st : State) :
  let st' := final (performGeneration env st) in
  activeTab st' = activeTab st
  /\ images st' = images st
  /\ promptGenerateEl_value st' = promptGenerateEl_value st
  /\ promptCombineEl_value st' = promptCombineEl_value st
  /\ view st' = view st
  /\ length (uploadAreas st') = length (uploadAreas st)
  /\ (forall k area', uploadAreas st' !! k = Some area' ->
      exists area, uploadAreas st !! k = Some area
                   /\ set_pointerEvents (pointerEvents area) area' = area).
Proof.
  pose proof (kept_performGeneration sameInputs
                (fun c st0 => ltac:(repeat split))
                (fun o st0 => ltac:(repeat split))
                setControlsDisabled_sameInputs env st)
    as (H1 & H2 & H3 & H4 & H5 & H6).
  cbv zeta. repeat (split; [assumption|]). split.
  - apply (f_equal length) in H6. rewrite !length_fmap in H6. exact H6.
  - intros k area' Hk.
    apply (f_equal (fun l => l !! k)) in H6. rewrite !list_lookup_fmap, Hk in H6.
    destruct (uploadAreas st !! k) as [area|]; [|discriminate H6].
    exists area. split; [reflexivity|]. simpl in H6. injection H6 as H6.
    destruct area, area'. unfold set_pointerEvents in *. simpl in *.
    congruence.
Qed.

(** *** How a request can end *)

Lemma scanParts_cases (ps : list Part) (st : State) :
  (exists url, scanParts ps st = (Normal true, set_output (rendered url) st, []))
  \/ scanParts ps st = (Normal false, st, []).
Proof.
  induction ps as [|part rest IH]; simpl; [right; reflexivity|].
  destruct (inlineData part) as [inline|]; [|exact IH].
  left. eexists. reflexivity.
Qed.

(** The [try] block makes its one call and then either renders an image and
    reports success, or throws with the state untouched. *)
Lemma tryBlock_cases (env : Env) (apiKey prompt : string) (st : State) :
  (exists url,
      tryBlock env apiKey prompt st
      = (Normal tt, set_statusEl successStatus (set_output (rendered url) st),
         [networkCallOf st apiKey prompt; StatusWritten successStatus]))
  \/ (exists e,
      tryBlock env apiKey prompt st = (Throw e, st, [networkCallOf st apiKey prompt])).
Proof.
  rewrite tryBlock_run. unfold networkCallOf. destruct (activeTab st).
  - rewrite generateImage_run. cbv zeta.
    destruct (generateImages env apiKey (generateImagesRequest prompt)) as [response|e];
      [|right; eexists; reflexivity].
    destruct (generatedImages response) as [[|first others]|];
      [right; eexists; reflexivity | left; eexists; reflexivity
      | right; eexists; reflexivity].
  - rewrite combineImages_run. cbv zeta.
    destruct (generateContent env apiKey _) as [response|e];
      [|right; eexists; reflexivity].
    destruct (candidates response) as [|first others];
      [right; eexists; reflexivity|].
    destruct (scanParts_cases (parts (content first)) st) as [[url ->]| ->].
    + left. eexists. reflexivity.
    + right. eexists. reflexivity.
Qed.

(** The [catch] block ends as the host dialog settles when it asks for the
    dialog and the host has one, and normally otherwise; it writes an error
    message to the status line and makes no network call. *)
Lemma catchBlock_cases (env : Env) (e : JsThrown) (st : State) :
  exists c message t,
    catchBlock env e st = (c, set_statusEl (errorStatus message) st, t)
    /\ networkCalls t = []
    /\ (forall thrown, c = Throw thrown -> openSelectKey env = Some (Throw thrown)).
Proof.
  rewrite catchBlock_run. cbv zeta.
  destruct (classifyError (errorMessageOf e)) as [message [|]]; simpl.
  - destruct (openSelectKey env) as [settles|].
    + exists settles, message. eexists. split; [reflexivity|]. split; [reflexivity|].
      intros thrown ->. reflexivity.
    + exists (Normal tt), msgDialogUnavailable. eexists.
      split; [reflexivity|]. split; [reflexivity|]. intros thrown H. discriminate H.
  - exists (Normal tt), message. eexists.
    split; [reflexivity|]. split; [reflexivity|]. intros thrown H. discriminate H.
Qed.

Lemma networkCallOf_isNetworkCall (st : State) (apiKey prompt : string) :
  isNetworkCall (networkCallOf st apiKey prompt) = true.
Proof. unfold networkCallOf. destruct (activeTab st); reflexivity. Qed.

Lemma map_set_pointerEvents_twice (s s' : string) (areas : list UploadArea) :
  map (set_pointerEvents s) (map (set_pointerEvents s') areas)
  = map (set_pointerEvents s) areas.
Proof.
  induction areas as [|area areas IH]; [reflexivity|]. simpl. f_equal. exact IH.
Qed.

(** The last call of [setControlsDisabled] decides: what an earlier call set
    is overwritten, not restored. *)
Lemma setControlsDisabled_absorbs (b b' : bool) (st : State) :
  setControlsDisabled b (setControlsDisabled b' st) = setControlsDisabled b st.
Proof.
  unfold setControlsDisabled. simpl. unfold set_uploadAreas. simpl. f_equal.
  apply map_set_pointerEvents_twice.
Qed.

(** A request ends in one of two ways: with an image rendered, the success
    status and a normal completion; or with the output hidden as the request
    left it and an error message in the status line. *)
Lemma performRequest_cases (env : Env) (apiKey prompt : string) (st : State) :
  let call := networkCallOf st apiKey prompt in
  (exists url,
      performRequest env apiKey prompt st
      = (Normal tt,
         setControlsDisabled false
           (set_statusEl successStatus (set_output (rendered url) st)),
         [call; StatusWritten successStatus]))
  \/ (exists c message t,
      performRequest env apiKey prompt st
      = (c,
         setControlsDisabled false
           (set_statusEl (errorStatus message) (set_output (hiddenOutput (output st)) st)),
         call :: t)
      /\ networkCalls t = []
      /\ (forall thrown, c = Throw thrown -> openSelectKey env = Some (Throw thrown))).
Proof.
  cbv zeta. rewrite performRequest_run. cbv zeta.
  match goal with
  | |- context [tryBlock env apiKey prompt ?s] =>
      destruct (tryBlock_cases env apiKey prompt s) as [[url ->]|[e ->]]
  end.
  - left. exists url. f_equal. f_equal.
    rewrite <- (setControlsDisabled_absorbs false true
                  (set_statusEl successStatus (set_output (rendered url) st))).
    reflexivity.
  - right.
    match goal with
    | |- context [catchBlock env e ?s] =>
        destruct (catchBlock_cases env e s) as (c & message & t & -> & Hnet & Hthrow)
    end.
    exists c, message, t. split; [|split; assumption].
    f_equal. f_equal.
    rewrite <- (setControlsDisabled_absorbs false true
                  (set_statusEl (errorStatus message)
                     (set_output (hiddenOutput (output st)) st))).
    reflexivity.
Qed.

(** [performGeneration] when nothing stops it before the request. *)
Lemma performGeneration_started (env : Env) (st : State) :
  ~ stopsBeforeRequest env st ->
  exists apiKey progress,
    truthy (API_KEY env) = Some apiKey
    /\ performGeneration env st
       = (writeStatus (innerText progress) ;;
          performRequest env apiKey (Js.trim (activePrompt st))) st.
Proof.
  intros Hgo. rewrite performGeneration_unfold.
  destruct (truthy (API_KEY env)) as [apiKey|] eqn:Hkey;
    [|exfalso; apply Hgo; left; exact Hkey].
  destruct ((populatedSlots st <? 2)%nat && _) eqn:Hfew.
  { exfalso. apply Hgo. right. right. apply andb_true_iff in Hfew as [Hlt Htab].
    apply Nat.ltb_lt in Hlt. destruct (activeTab st); [discriminate Htab|]. auto. }
  destruct (String.eqb _ _) eqn:Hprompt.
  { exfalso. apply Hgo. right. left. apply String.eqb_eq. exact Hprompt. }
  exists apiKey. eexists. split; reflexivity.
Qed.

Lemma started_run (progress : StatusContent) (m : M unit) (st : State) :
  (writeStatus progress ;; m) st
  = (completion (m (set_statusEl progress st)),
     final (m (set_statusEl progress st)),
     StatusWritten progress :: trace (m (set_statusEl progress st))).
Proof.
  unfold bind at 1. unfold writeStatus, bind, modify, emit. simpl.
  destruct (m (set_statusEl progress st)) as [[c st'] t]. reflexivity.
Qed.

Lemma networkCalls_cons (ev : Event) (t : list Event) :
  networkCalls (ev :: t)
  = if isNetworkCall ev then ev :: networkCalls t else networkCalls t.
Proof. reflexivity. Qed.

Lemma noNetworkCall_networkCalls (t : list Event) :
  noNetworkCall t -> networkCalls t = [].
Proof.
  induction 1 as [|ev t Hev _ IH]; [reflexivity|].
  rewrite networkCalls_cons, Hev. exact IH.
Qed.

(** The network calls of a trigger that stops before the request, and of
    one that does not. *)
Lemma networkCalls_of_trigger (env : Env) (st : State) :
  (stopsBeforeRequest env st -> networkCalls (trace (performGeneration env st)) = [])
  /\ (~ stopsBeforeRequest env st ->
      exists apiKey,
        truthy (API_KEY env) = Some apiKey
        /\ networkCalls (trace (performGeneration env st))
           = [networkCallOf st apiKey (Js.trim (activePrompt st))]).
Proof.
  split.
  - intros Hstop.
    destruct (stopsBeforeRequest_run env st Hstop) as (c & status & t & -> & Hnone).
    apply noNetworkCall_networkCalls, Hnone.
  - intros Hgo.
    destruct (performGeneration_started env st Hgo) as (apiKey & progress & Hkey & ->).
    exists apiKey. split; [exact Hkey|]. rewrite started_run.
    destruct (performRequest_cases env apiKey (Js.trim (activePrompt st))
                (set_statusEl (innerText progress) st))
      as [[url ->]|(c & message & t & -> & Hnet & _)];
      unfold trace; cbn [fst snd];
      change (networkCallOf (set_statusEl (innerText progress) st))
        with (networkCallOf st);
      rewrite !networkCalls_cons, networkCallOf_isNetworkCall; cbn [isNetworkCall].
    + reflexivity.
    + rewrite Hnet. reflexivity.
Qed.

(** X2.  One trigger makes at most one network call.  It makes none when it
    stops before the request; otherwise it makes exactly one, for the active
    mode, with the configured credential and the trimmed prompt (and, in
    combine mode, the populated slots). *)
Theorem one_network_call (env : Env) (st : State) :
  let run := performGeneration env st in
  length (networkCalls (trace run)) <= 1
  /\ (stopsBeforeRequest env st -> networkCalls (trace run) = [])
  /\ (~ stopsBeforeRequest env st ->
      exists apiKey,
        truthy (API_KEY env) = Some apiKey
        /\ networkCalls (trace run)
           = [networkCallOf st apiKey (Js.trim (activePrompt st))]).
Proof.
  cbv zeta. destruct (networkCalls_of_trigger env st) as [Hstop Hgo].
  split; [|split; assumption].
  rewrite performGeneration_unfold.
  destruct (truthy (API_KEY env)) as [apiKey|].
  - destruct (_ && _); [simpl; lia|].
    destruct (String.eqb _ _); [simpl; lia|].
    rewrite started_run.
    match goal with
    | |- context [performRequest env apiKey ?p ?s] =>
        destruct (performRequest_cases env apiKey p s)
          as [[url ->]|(c & message & t & -> & Hnet & _)]
    end; unfold trace; cbn [fst snd];
      rewrite !networkCalls_cons, networkCallOf_isNetworkCall; cbn [isNetworkCall].
    + simpl. lia.
    + rewrite Hnet. simpl. lia.
  - unfold bind. rewrite showStatusError_run, openApiKeyDialog_run.
    destruct (openSelectKey env); simpl; lia.
Qed.

(** An instance of X2: combine mode, two images, a prompt with blanks
    around it. *)
Lemma one_network_call_witness :
  let env := Sample.world None [Sample.imagePart "image/png" "UE5H"] in
  let st := Sample.twoImages "  merge these " in
  networkCalls (trace (performGeneration env st))
  = [GenerateContentCalled "k-123"
       (generateContentRequest "merge these" [Sample.cat; Sample.dog])].
Proof.
  intros env st.
  assert (~ stopsBeforeRequest env st) as Hgo.
  { intros [H|[H|[_ H]]]; [discriminate H | discriminate H | vm_compute in H; lia]. }
  destruct (proj2 (proj2 (one_network_call env st)) Hgo) as (apiKey & Hkey & ->).
  injection Hkey as <-. reflexivity.
Defined.

(** X3.  A trigger of the primary action completes normally whenever the
    host dialog does: the only value it ever throws is the one the host's
    key-selection dialog rejected with.  No failure of the remote call or of
    the rendering leaves the handler. *)
Theorem throws_only_what_dialog_rejects (env : Env) (st : State) (thrown : JsThrown) :
  completion (performGeneration env st) = Throw thrown ->
  openSelectKey env = Some (Throw thrown).
Proof.
  rewrite performGeneration_unfold.
  destruct (truthy (API_KEY env)) as [apiKey|].
  - destruct (_ && _); [intros H; discriminate H|].
    destruct (String.eqb _ _); [intros H; discriminate H|].
    rewrite started_run. unfold completion at 1. simpl.
    match goal with
    | |- context [performRequest env apiKey ?p ?s] =>
        destruct (performRequest_cases env apiKey p s)
          as [[url ->]|(c & message & t & -> & _ & Hthrow)]
    end; unfold completion; simpl.
    + intros H. discriminate H.
    + apply Hthrow.
  - unfold bind. rewrite showStatusError_run, openApiKeyDialog_run.
    destruct (openSelectKey env) as [settles|]; unfold completion; simpl.
    + intros ->. reflexivity.
    + intros H. discriminate H.
Qed.

(** An instance of X3: the remote call rejects with an invalid-key message
    and the host dialog rejects in turn. *)
Lemma throws_only_what_dialog_rejects_witness :
  let closed := OtherValue "dialog closed" in
  let env := Sample.failing (ErrorObject "API_KEY_INVALID") (Some (Throw closed)) in
  completion (performGeneration env (Sample.withPrompt "a red fox")) = Throw closed
  /\ openSelectKey env = Some (Throw closed).
Proof.
  intros closed env.
  assert (completion (performGeneration env (Sample.withPrompt "a red fox"))
          = Throw closed) as Hrun by reflexivity.
  split; [exact Hrun|].
  exact (throws_only_what_dialog_rejects env (Sample.withPrompt "a red fox") closed Hrun).
Defined.

(** X4.  After every request the image and the download control are on show
    exactly when the status reports success.  A request that does not end in
    success completes with an error message in the status line, both
    elements hidden and the image source untouched; one that ends in success
    completes normally. *)
Theorem shown_iff_success (env : Env) (apiKey prompt : string) (st : State) :
  let run := performRequest env apiKey prompt st in
  (visible (outputImage_display (output (final run)))
   <-> statusEl (final run) = successStatus)
  /\ (visible (downloadButton_display (output (final run)))
      <-> statusEl (final run) = successStatus)
  /\ (statusEl (final run) = successStatus -> completion run = Normal tt)
  /\ (statusEl (final run) <> successStatus ->
      (exists message, statusEl (final run) = errorStatus message)
      /\ output (final run) = hiddenOutput (output st)).
Proof.
  cbv zeta.
  destruct (performRequest_cases env apiKey prompt st)
    as [[url ->]|(c & message & t & -> & _ & _)]; unfold final, completion; simpl.
  - split; [split; reflexivity|]. split; [split; reflexivity|].
    split; [reflexivity|]. intros H. contradiction H. reflexivity.
  - split; [split; intros H; discriminate H|].
    split; [split; intros H; discriminate H|].
    split; [intros H; discriminate H|]. intros _.
    split; [exists message|]; reflexivity.
Qed.

(** X5.  When the trigger has finished, the status line shows the success
    text or an error message: the progress text written when the request
    started never stays. *)
Theorem status_is_settled (env : Env) (st : State) :
  statusEl (final (performGeneration env st)) = successStatus
  \/ exists message, statusEl (final (performGeneration env st)) = errorStatus message.
Proof.
  rewrite performGeneration_unfold.
  destruct (truthy (API_KEY env)) as [apiKey|].
  - destruct (_ && _); [right; eexists; reflexivity|].
    destruct (String.eqb _ _); [right; eexists; reflexivity|].
    rewrite started_run. unfold final at 1 3. simpl.
    match goal with
    | |- context [performRequest env apiKey ?p ?s] =>
        destruct (performRequest_cases env apiKey p s)
          as [[url ->]|(c & message & t & -> & _ & _)]
    end; unfold final; simpl.
    + left. reflexivity.
    + right. exists message. reflexivity.
  - right. unfold bind. rewrite showStatusError_run, openApiKeyDialog_run.
    destruct (openSelectKey env); eexists; reflexivity.
Qed.

(** X6.  A remote call that rejects with a value that is no [Error] is
    reported under the unknown-error text: the status shows that text after
    the label for errors, the key-selection dialog is not opened, and the
    request completes normally with the output hidden. *)
Theorem non_error_rejection_is_reported (env : Env) (apiKey prompt : string)
    (st : State) (value : string) :
  remoteRejects env st apiKey prompt (OtherValue value) ->
  let run := performRequest env apiKey prompt st in
  completion run = Normal tt
  /\ statusEl (final run) = errorStatus ("Error: " +:+ msgUnknownError)
  /\ ~ In OpenSelectKeyCalled (trace run)
  /\ output (final run) = hiddenOutput (output st).
Proof.
  intros Hrej. cbv zeta. rewrite (performRequest_rejected _ _ _ _ _ Hrej). cbv zeta.
  rewrite catchBlock_run. cbv zeta.
  assert (classifyError (errorMessageOf (OtherValue value))
          = ("Error: " +:+ msgUnknownError, false)) as -> by (vm_compute; reflexivity).
  unfold completion, final, trace. simpl.
  repeat (split; [reflexivity|]). split; [|reflexivity].
  intros [H|[H|[H|[]]]]; try discriminate H.
  unfold networkCallOf in H. destruct (activeTab st); discriminate H.
Qed.

(** An instance of X6: the image endpoint rejects with a plain string. *)
Lemma non_error_rejection_is_reported_witness :
  let env := Sample.failing (OtherValue "timeout") (Some (Normal tt)) in
  let st := Sample.withPrompt "a red fox" in
  statusEl (final (performRequest env "k-123" "a red fox" st))
  = errorStatus ("Error: " +:+ msgUnknownError).
Proof.
  intros env st.
  exact (proj1 (proj2
    (non_error_rejection_is_reported env "k-123" "a red fox" st "timeout" eq_refl))).
Defined.

(** X7.  A combine answer that cannot be rendered is reported as an error of
    its own, never as a credential problem: with no candidate at all the
    read of the first one throws, and with a first candidate that has no
    part with inline data the no-combined-image error is thrown; either way
    the request completes normally, the status shows the error after the
    label for errors, nothing is on show, the dialog is not opened and the
    controls are enabled. *)
Theorem unusable_combine_answer_is_reported (env : Env) (apiKey prompt : string)
    (st : State) (response : GenerateContentResponse) :
  activeTab st = combine ->
  generateContent env apiKey
    (generateContentRequest prompt (filterNotNull (images st))) = Normal response ->
  match candidates response with
  | [] => True
  | first :: _ => Forall (fun p => inlineData p = None) (parts (content first))
  end ->
  let run := performRequest env apiKey prompt st in
  completion run = Normal tt
  /\ statusEl (final run)
     = errorStatus ("Error: " +:+ match candidates response with
                                  | [] => msgUndefinedRead
                                  | _ => msgNoCombinedImage
                                  end)
  /\ output (final run) = hiddenOutput (output st)
  /\ ~ In OpenSelectKeyCalled (trace run)
  /\ controlsEnabled (final run).
Proof.
  intros Htab Hresponse Hparts. cbv zeta.
  rewrite performRequest_run. cbv zeta. rewrite tryBlock_run. simpl.
  rewrite Htab, combineImages_run. cbv zeta. simpl. rewrite Hresponse.
  destruct (candidates response) as [|first others].
  - rewrite catchBlock_run. cbv zeta.
    assert (classifyError (errorMessageOf (ErrorObject msgUndefinedRead))
            = ("Error: " +:+ msgUndefinedRead, false)) as -> by (vm_compute; reflexivity).
    unfold completion, final, trace. simpl.
    repeat (split; [reflexivity|]). split.
    + intros [H|[H|[H|[]]]]; discriminate H.
    + split; [reflexivity|]. simpl. apply Forall_fmap, Forall_true. reflexivity.
  - rewrite (scanParts_none _ _ Hparts). rewrite catchBlock_run. cbv zeta.
    assert (classifyError (errorMessageOf (ErrorObject msgNoCombinedImage))
            = ("Error: " +:+ msgNoCombinedImage, false)) as -> by (vm_compute; reflexivity).
    unfold completion, final, trace. simpl.
    repeat (split; [reflexivity|]). split.
    + intros [H|[H|[H|[]]]]; discriminate H.
    + split; [reflexivity|]. simpl. apply Forall_fmap, Forall_true. reflexivity.
Qed.

(** An instance of X7: the first candidate holds a text part only. *)
Lemma unusable_combine_answer_is_reported_witness :
  let env := Sample.world None [Sample.textPart "I cannot do that."] in
  let st := Sample.twoImages "merge these" in
  statusEl (final (performRequest env "k-123" "merge these" st))
  = errorStatus ("Error: " +:+ msgNoCombinedImage).
Proof.
  intros env st.
  assert (Forall (fun p => inlineData p = None) [Sample.textPart "I cannot do that."])
    as Hparts by (repeat constructor).
  exact (proj1 (proj2
    (unusable_combine_answer_is_reported env "k-123" "merge these" st
       {| candidates := [ {| content := {| parts := [Sample.textPart "I cannot do that."] |} |} ] |}
       eq_refl eq_refl Hparts))).
Defined.

(** *** Upload areas and their slots *)

Lemma ownSlots_indicesInRange (st : State) : ownSlots st -> indicesInRange st.
Proof.
  unfold ownSlots, indicesInRange. intros ->. apply Forall_lookup.
  intros j i Hji. apply lookup_seq in Hji as [-> Hj]. exact Hj.
Qed.

Lemma ownSlots_lookup (st : State) (k : nat) (area : UploadArea) :
  ownSlots st -> uploadAreas st !! k = Some area ->
  index area = k /\ k < length (images st).
Proof.
  unfold ownSlots. intros Hown Hk.
  assert ((index <$> uploadAreas st) !! k = Some (index area)) as Hidx
    by (rewrite list_lookup_fmap, Hk; reflexivity).
  rewrite Hown in Hidx. apply lookup_seq in Hidx as [-> Hlt]. split; [reflexivity|exact Hlt].
Qed.

Lemma ownSlots_lengths (st : State) :
  ownSlots st -> length (uploadAreas st) = length (images st).
Proof.
  unfold ownSlots. intros H. apply (f_equal length) in H.
  rewrite length_fmap, length_seq in H. exact H.
Qed.

(** The listener body, case by case, in a state where every area's index is
    in range. *)
Lemma fileReceived_run (k : nat) (file : option (Completion ImageData)) (st : State) :
  indicesInRange st ->
  fileReceived k file st =
  match uploadAreas st !! k, file with
  | Some area, Some (Normal imageData) =>
      (Normal tt,
       alterArea (showPreview imageData) k
         (set_images (<[index area := Some imageData]> (images st)) st),
       [])
  | Some area, Some (Throw e) => (Throw e, st, [])
  | _, _ => (Normal tt, st, [])
  end.
Proof.
  intros Hin. unfold fileReceived, bind, gets. simpl.
  destruct (uploadAreas st !! k) as [area|] eqn:Hk; [|reflexivity].
  destruct file as [[imageData|e]|]; simpl; try reflexivity.
  assert (index area < length (images st)) as Hlt.
  { apply (Forall_lookup_1 (fun i => i < length (images st))
             (index <$> uploadAreas st) k (index area) Hin).
    rewrite list_lookup_fmap, Hk. reflexivity. }
  unfold onImageLoaded, arraySet.
  destruct (decide (index area < length (images st))); [reflexivity|lia].
Qed.


Lemma sameSlots_ownSlots (st st' : State) : sameSlots st st' -> ownSlots st -> ownSlots st'.
Proof. unfold ownSlots. intros [-> ->] H. exact H. Qed.

Lemma initialise_ownSlots (page : State) : ownSlots (initialise page).
Proof.
  unfold ownSlots. rewrite initialise_images, length_replicate.
  unfold initialise.
  destruct (initialise_loop (length (uploadAreas page)) 0
              (set_images [] (set_activeTab generate page)))
    as (_ & H2 & H3); [reflexivity | intros j i Hj; lia |].
  simpl in H2, H3. apply list_eq. intros j.
  destruct (decide (j < length (uploadAreas page))) as [Hj|Hj].
  - rewrite lookup_seq_lt by exact Hj. simpl.
    destruct (lookup_lt_is_Some_2 (index <$> uploadAreas
       (foldl (fun st k => setupUploadArea k k (set_images (images st ++ [None]) st))
          (set_images [] (set_activeTab generate page))
          (seq 0 (length (uploadAreas page))))) j) as [i Hi].
    { rewrite length_fmap, H2. exact Hj. }
    rewrite Hi. f_equal. exact (H3 j i Hj Hi).
  - rewrite lookup_seq_ge by lia. apply lookup_ge_None. rewrite length_fmap, H2. lia.
Qed.

Lemma dispatch_ownSlots (env : Env) (ev : UiEvent) (st : State) :
  ownSlots st -> ownSlots (final (dispatch env ev st)).
Proof.
  intros Hown. pose proof (ownSlots_indicesInRange st Hown) as Hin.
  assert (forall f k st0, (forall area, index (f area) = index area) ->
             ownSlots st0 -> ownSlots (alterArea f k st0)) as Halter.
  { intros f k st0 Hf. apply sameSlots_ownSlots, alterArea_sameSlots, Hf. }
  assert (forall k file st0, ownSlots st0 -> ownSlots (final (fileReceived k file st0)))
    as Hfile.
  { intros k file st0 Hown0.
    rewrite (fileReceived_run k file st0 (ownSlots_indicesInRange st0 Hown0)).
    destruct (uploadAreas st0 !! k) as [area|]; [|exact Hown0].
    destruct file as [[imageData|e]|]; try exact Hown0.
    apply Halter; [reflexivity|]. unfold ownSlots in *. simpl.
    rewrite length_insert. exact Hown0. }
  destruct ev.
  - exact Hown.
  - exact Hown.
  - exact (sameSlots_ownSlots _ _ (preserves_performGeneration env st) Hown).
  - exact Hown.
  - change (ownSlots (addImageClicked st)).
    unfold ownSlots. destruct (addImageClicked_slots st) as [-> ->].
    rewrite length_app. simpl. rewrite Nat.add_1_r, seq_S. simpl.
    unfold ownSlots in Hown. rewrite Hown. reflexivity.
  - exact Hown.
  - apply Hfile, Hown.
  - apply Halter; [reflexivity | exact Hown].
  - apply Halter; [reflexivity | exact Hown].
  - simpl. unfold bind, modify.
    pose proof (Hfile k file _ (Halter (set_dragover false) k st (fun _ => eq_refl) Hown))
      as H.
    destruct (fileReceived k file (alterArea (set_dragover false) k st)) as [[c st'] t].
    exact H.
  - exact Hown.
  - exact Hown.
Qed.

Lemma reachable_ownSlots (st : State) : reachable st -> ownSlots st.
Proof.
  induction 1 as [page|env ev st c st' t _ IH Hrun].
  - apply initialise_ownSlots.
  - pose proof (dispatch_ownSlots env ev st IH) as H. rewrite Hrun in H. exact H.
Qed.

(** X8.  In every state the page can reach, each upload area has a slot of
    its own: there are as many slots as upload areas, the area at position
    [k] writes to slot [k], and so no two areas write to the same slot. *)
Theorem areas_own_slots (st : State) :
  reachable st ->
  length (uploadAreas st) = length (images st)
  /\ (forall k area, uploadAreas st !! k = Some area -> index area = k)
  /\ (forall j k a b,
        uploadAreas st !! j = Some a -> uploadAreas st !! k = Some b ->
        index a = index b -> j = k).
Proof.
  intros Hreach. apply reachable_ownSlots in Hreach.
  split; [apply ownSlots_lengths, Hreach|]. split.
  - intros k area Hk. apply (ownSlots_lookup st k area Hreach Hk).
  - intros j k a b Hj Hk Hab.
    destruct (ownSlots_lookup st j a Hreach Hj) as [<- _].
    destruct (ownSlots_lookup st k b Hreach Hk) as [<- _]. exact Hab.
Qed.

(** An instance of X8: the sample page after one more area has been
    added. *)
Lemma areas_own_slots_witness :
  let st := final (dispatch (Sample.world None []) AddImageButtonClick Sample.start) in
  reachable st /\ length (uploadAreas st) = 3 /\ length (images st) = 3.
Proof.
  intros st.
  assert (reachable st) as Hreach.
  { eapply (reachable_step (Sample.world None []) AddImageButtonClick Sample.start);
      [apply reachable_init | reflexivity]. }
  split; [exact Hreach|]. split; [reflexivity|].
  rewrite <- (proj1 (areas_own_slots st Hreach)). reflexivity.
Defined.

(** *** The image encoder *)

Lemma string_app_assoc (a b c : string) : (a +:+ b) +:+ c = a +:+ b +:+ c.
Proof.
  induction a as [|x a IH]; [reflexivity|]. rewrite !app_String, IH. reflexivity.
Qed.

Lemma string_app_empty_r (a : string) : a +:+ EmptyString = a.
Proof. induction a as [|x a IH]; [reflexivity|]. rewrite app_String, IH. reflexivity. Qed.

Lemma commaFree_String (c : ascii) (s : string) :
  commaFree (String c s) <-> Ascii.eqb c "," = false /\ commaFree s.
Proof.
  unfold commaFree. cbn [Js.includes Js.startsWith]. rewrite andb_true_r.
  rewrite orb_false_iff, (Ascii.eqb_sym "," c). reflexivity.
Qed.

Lemma commaFree_app (a b : string) :
  commaFree (a +:+ b) <-> commaFree a /\ commaFree b.
Proof.
  induction a as [|c a IH].
  - rewrite app_empty. split; [intros H; split; [reflexivity|exact H] | intros [_ H]; exact H].
  - rewrite app_String, !commaFree_String, IH. tauto.
Qed.

Lemma splitOn_nonempty (sep : ascii) (s : string) : splitOn sep s <> [].
Proof.
  destruct s as [|c s]; simpl; [discriminate|].
  destruct (Ascii.eqb c sep); [discriminate|].
  destruct (splitOn sep s); discriminate.
Qed.

(** A string without a comma is its own only piece. *)
Lemma splitOn_commaFree (s : string) : commaFree s -> splitOn "," s = [s].
Proof.
  induction s as [|c s IH]; intros H; [reflexivity|].
  apply commaFree_String in H as [Hc Hs]. simpl. rewrite Hc, (IH Hs). reflexivity.
Qed.

(** The first piece ends at the first comma. *)
Lemma splitOn_first_comma (a b : string) :
  commaFree a -> splitOn "," (a +:+ String "," b) = a :: splitOn "," b.
Proof.
  induction a as [|c a IH]; intros H.
  - rewrite app_empty. reflexivity.
  - apply commaFree_String in H as [Hc Ha]. rewrite app_String. simpl.
    rewrite Hc, (IH Ha). reflexivity.
Qed.

(** A text with a comma in it has a second piece. *)
Lemma splitOn_second_piece (a b : string) :
  is_Some (splitOn "," (a +:+ String "," b) !! 1).
Proof.
  induction a as [|c a IH].
  - rewrite app_empty. simpl.
    destruct (splitOn "," b) as [|piece pieces] eqn:Hb;
      [exfalso; exact (splitOn_nonempty _ _ Hb) | eexists; reflexivity].
  - rewrite app_String. simpl. destruct (Ascii.eqb c ",").
    + destruct (splitOn "," (a +:+ String "," b)) as [|piece pieces] eqn:Hab;
        [exfalso; exact (splitOn_nonempty _ _ Hab) | eexists; reflexivity].
    + destruct (splitOn "," (a +:+ String "," b)) as [|piece pieces];
        [destruct IH as [x Hx]; discriminate Hx | exact IH].
Qed.

Lemma dataUrlText_comma (u : DataUrl) :
  dataUrlText u = ("data:" +:+ mediaType u +:+ ";base64") +:+ String "," (payload u).
Proof.
  unfold dataUrlText. rewrite !string_app_assoc. reflexivity.
Qed.

(** The encoder on a file whose data URL has its only comma before the
    base64 text. *)
Lemma fileToBase64_read (file : File) (u : DataUrl) :
  file_read file = Some u ->
  commaFree (mediaType u) -> commaFree (payload u) ->
  fileToBase64 file = Normal {| base64 := payload u; mimeType := file_type file |}.
Proof.
  intros Hread Hmedia Hpayload. unfold fileToBase64. rewrite Hread.
  cbv zeta. rewrite dataUrlText_comma, splitOn_first_comma.
  - rewrite (splitOn_commaFree _ Hpayload). reflexivity.
  - apply commaFree_app. split; [reflexivity|].
    apply commaFree_app. split; [exact Hmedia | reflexivity].
Qed.

(** X9.  The encoder resolves with the file's declared type and with the
    base64 text of the data URL the reader produced, whenever neither the
    media type nor the base64 text of that URL holds a comma; the preview URL
    a listener builds from the result is then the reader's data URL again,
    provided the URL's media type is the file's declared type.  The piece
    the encoder takes exists for every data URL, and a reader error rejects
    with a value that is no [Error]. *)
Theorem fileToBase64_decodes (file : File) :
  (forall u,
      file_read file = Some u ->
      commaFree (mediaType u) -> commaFree (payload u) ->
      let imageData := {| base64 := payload u; mimeType := file_type file |} in
      fileToBase64 file = Normal imageData
      /\ (mediaType u = file_type file -> previewUrl imageData = dataUrlText u))
  /\ (forall u, is_Some (splitOn "," (dataUrlText u) !! 1))
  /\ (file_read file = None -> exists value, fileToBase64 file = Throw (OtherValue value)).
Proof.
  split; [|split].
  - intros u Hread Hmedia Hpayload. cbv zeta.
    split; [exact (fileToBase64_read file u Hread Hmedia Hpayload)|].
    intros <-. reflexivity.
  - intros u. rewrite dataUrlText_comma. apply splitOn_second_piece.
  - intros Hread. unfold fileToBase64. rewrite Hread. eexists. reflexivity.
Qed.

(** An instance of X9: a PNG file. *)
Lemma fileToBase64_decodes_witness :
  let u := {| mediaType := "image/png"; payload := "iVBORw0KGgo=" |} in
  let file := {| file_type := "image/png"; file_read := Some u |} in
  fileToBase64 file = Normal {| base64 := "iVBORw0KGgo="; mimeType := "image/png" |}
  /\ previewUrl {| base64 := "iVBORw0KGgo="; mimeType := "image/png" |}
     = "data:image/png;base64,iVBORw0KGgo=".
Proof.
  intros u file.
  destruct (proj1 (fileToBase64_decodes file) u eq_refl eq_refl eq_refl) as [H1 H2].
  split; [exact H1|]. exact (H2 eq_refl).
Defined.

(** *** Uploads *)



(** X11.  An upload event that brings no usable file changes no slot and no
    preview: when the event carries no file, when the position names no
    upload area, or when reading the first file fails, the change listener
    leaves the state as it was and the drop listener only ends the hover
    state.  The listener throws exactly when an existing area was given a
    file whose read failed. *)
Theorem upload_without_file_changes_nothing (st : State) (k : nat) (files : list File) :
  files = [] \/ uploadAreas st !! k = None
    \/ (exists file others, files = file :: others /\ file_read file = None) ->
  let changed := changeListener k files st in
  let dropped := dropListener k files st in
  final changed = st
  /\ trace changed = []
  /\ final dropped = alterArea (set_dragover false) k st
  /\ ((exists e, completion changed = Throw e)
      <-> is_Some (uploadAreas st !! k)
          /\ exists file others, files = file :: others /\ file_read file = None).
Proof.
  intros Hcase. cbv zeta. unfold changeListener, dropListener, fileReceived.
  unfold bind, gets, modify. simpl.
  assert (uploadAreas (alterArea (set_dragover false) k st) !! k
          = set_dragover false <$> uploadAreas st !! k) as Hk'
    by (simpl; apply list_lookup_alter_eq).
  simpl in Hk'. rewrite Hk'. clear Hk'.
  destruct Hcase as [->|[Hnone|(file & others & -> & Hread)]].
  - simpl. destruct (uploadAreas st !! k); simpl; (repeat (split; [reflexivity|]));
      (split; [intros [e H]; discriminate H | intros [_ (f & o & H & _)]; discriminate H]).
  - rewrite Hnone. simpl. repeat (split; [reflexivity|]).
    split; [intros [e H]; discriminate H | intros [[x H] _]; discriminate H].
  - simpl. unfold fileToBase64. rewrite Hread.
    destruct (uploadAreas st !! k) as [area|]; simpl; repeat (split; [reflexivity|]).
    + split; [intros _|intros _; eexists; reflexivity].
      split; [eexists; reflexivity|]. exists file, others. split; [reflexivity|exact Hread].
    + split; [intros [e H]; discriminate H | intros [[x H] _]; discriminate H].
Qed.

(** An instance of X11: the only file of the event cannot be read. *)
Lemma upload_without_file_changes_nothing_witness :
  let file := {| file_type := "image/png"; file_read := None |} in
  final (changeListener 0 [file] Sample.start) = Sample.start
  /\ exists e, completion (changeListener 0 [file] Sample.start) = Throw e.
Proof.
  intros file.
  assert (exists f others, [file] = f :: others /\ file_read f = None) as Hcase
    by (exists file, []; split; reflexivity).
  destruct (upload_without_file_changes_nothing Sample.start 0 [file]
              (or_intror (or_intror Hcase))) as (H1 & _ & _ & H4).
  split; [exact H1|]. apply H4. split; [eexists; reflexivity | exact Hcase].
Defined.

Lemma filterNotNull_app (l l' : list (option ImageData)) :
  filterNotNull (l ++ l') = filterNotNull l ++ filterNotNull l'.
Proof.
  induction l as [|[img|] l IH]; simpl; [reflexivity | f_equal; exact IH | exact IH].
Qed.

Lemma filterNotNull_insert_length (l : list (option ImageData)) (i : nat)
    (imageData : ImageData) :
  length (filterNotNull l) <= length (filterNotNull (<[i := Some imageData]> l)).
Proof.
  revert i. induction l as [|[img|] l IH]; intros [|i]; simpl; try lia.
  - specialize (IH i). lia.
  - apply IH.
Qed.

Lemma slotsStep_populated (before after : list (option ImageData)) :
  slotsStep before after ->
  length (filterNotNull before) <= length (filterNotNull after)
  /\ (forall i imageData, before !! i = Some (Some imageData) ->
      exists imageData', after !! i = Some (Some imageData')).
Proof.
  intros [->| ->|k imageData Hk ->].
  - split; [lia|]. intros i d H. exists d. exact H.
  - split; [rewrite filterNotNull_app, length_app; lia|].
    intros i d H. exists d. apply lookup_app_l_Some, H.
  - split; [apply filterNotNull_insert_length|].
    intros i d H. destruct (decide (k = i)) as [->|Hne].
    + exists imageData. apply list_lookup_insert_eq, Hk.
    + exists d. rewrite list_lookup_insert_ne by exact Hne. exact H.
Qed.

Lemma reachable_final (env : Env) (ev : UiEvent) (st : State) :
  reachable st -> reachable (final (dispatch env ev st)).
Proof.
  intros Hreach. destruct (dispatch env ev st) as [[c st'] t] eqn:Hrun.
  exact (reachable_step env ev st c st' t Hreach Hrun).
Qed.

Lemma reachable_runEvents (evs : list (Env * UiEvent)) (st : State) :
  reachable st -> reachable (runEvents evs st).
Proof.
  unfold runEvents. revert st. induction evs as [|[env ev] evs IH]; intros st Hreach.
  - exact Hreach.
  - simpl. apply IH, reachable_final, Hreach.
Qed.

(** X12.  An uploaded image is never lost: in every state the page can
    reach, whatever event comes next, a slot that holds an image still holds
    one afterwards, and the number of populated slots does not go down.  So
    once two slots are populated, they stay so over any sequence of
    events. *)
Theorem images_never_lost (env : Env) (ev : UiEvent) (st : State) :
  reachable st ->
  populatedSlots st <= populatedSlots (final (dispatch env ev st))
  /\ (forall i, populatedAt st i -> populatedAt (final (dispatch env ev st)) i)
  /\ (forall evs, populatedSlots st <= populatedSlots (runEvents evs st)).
Proof.
  intros Hreach. apply reachable_indicesInRange in Hreach.
  destruct (dispatch_slots env ev st Hreach) as [Hstep _].
  apply slotsStep_populated in Hstep as [Hcount Hkeep].
  split; [exact Hcount|]. split.
  - intros i [imageData Hi]. exact (Hkeep i imageData Hi).
  - clear Hcount Hkeep. intros evs. unfold runEvents.
    revert st Hreach. induction evs as [|[env' ev'] evs IH]; intros st Hin; simpl.
    + lia.
    + destruct (dispatch_slots env' ev' st Hin) as [Hstep Hin'].
      apply slotsStep_populated in Hstep as [Hcount _].
      specialize (IH _ Hin'). unfold populatedSlots in *. lia.
Qed.

(** An instance of X12: after two uploads on the sample page, a further
    upload to the first area and a tab switch leave two populated slots. *)
Lemma images_never_lost_witness :
  let env := Sample.world None [] in
  let st := runEvents [(env, FileChange 0 (Some (Normal Sample.cat)));
                       (env, FileChange 1 (Some (Normal Sample.dog)))] Sample.start in
  reachable st
  /\ populatedSlots st = 2
  /\ 2 <= populatedSlots
            (runEvents [(env, FileChange 0 (Some (Normal Sample.dog)));
                        (env, TabCombineClick)] st).
Proof.
  intros env st.
  assert (reachable st) as Hreach by apply reachable_runEvents, reachable_init.
  split; [exact Hreach|]. split; [reflexivity|].
  exact (proj2 (proj2 (images_never_lost env TabCombineClick st Hreach)) _).
Defined.

(** X13.  The add-image button gives the page one more upload area with a
    slot of its own: in every state the page can reach, a click appends one
    empty slot and one area, leaves the areas and slots there were as they
    are, and a file that then arrives at the new area fills the new slot. *)
Theorem added_area_is_usable (env : Env) (st : State) (imageData : ImageData) :
  reachable st ->
  let k := length (uploadAreas st) in
  let added := final (dispatch env AddImageButtonClick st) in
  let loaded := final (dispatch env (FileChange k (Some (Normal imageData))) added) in
  images added = images st ++ [None]
  /\ (exists area, uploadAreas added = uploadAreas st ++ [area] /\ index area = k)
  /\ images loaded = images st ++ [Some imageData]
  /\ populatedSlots loaded = S (populatedSlots st).
Proof.
  intros Hreach. cbv zeta.
  pose proof (reachable_ownSlots st Hreach) as Hown.
  pose proof (ownSlots_lengths st Hown) as Hlen.
  assert (uploadAreas (addImageClicked st)
          = uploadAreas st ++ [ {| index := length (images st);
                                   pointerEvents := EmptyString; dragover := false;
                                   placeholder_display := EmptyString;
                                   preview_src := EmptyString;
                                   preview_display := EmptyString |} ]) as Hareas.
  { simpl. rewrite alter_app_r_alt by lia. rewrite Nat.sub_diag. reflexivity. }
  change (final (dispatch env AddImageButtonClick st)) with (addImageClicked st).
  assert (ownSlots (addImageClicked st)) as Hown'
    by exact (dispatch_ownSlots env AddImageButtonClick st Hown).
  split; [reflexivity|]. split.
  { eexists. split; [exact Hareas|]. simpl. symmetry. exact Hlen. }
  change (dispatch env (FileChange (length (uploadAreas st)) (Some (Normal imageData))))
    with (fileReceived (length (uploadAreas st)) (Some (Normal imageData))).
  rewrite (fileReceived_run _ _ _ (ownSlots_indicesInRange _ Hown')).
  rewrite Hareas, list_lookup_middle by reflexivity.
  unfold populatedSlots, final.
  cbn [fst snd images alterArea set_images set_uploadAreas index].
  assert (<[length (images st) := Some imageData]> (images (addImageClicked st))
          = images st ++ [Some imageData]) as ->.
  { change (images (addImageClicked st)) with (images st ++ [None]).
    rewrite insert_app_r_alt by lia. rewrite Nat.sub_diag. reflexivity. }
  split; [reflexivity|].
  rewrite filterNotNull_app, length_app. simpl. lia.
Qed.

(** An instance of X13: a third area on the sample page. *)
Lemma added_area_is_usable_witness :
  let env := Sample.world None [] in
  let added := final (dispatch env AddImageButtonClick Sample.start) in
  reachable Sample.start
  /\ images (final (dispatch env (FileChange 2 (Some (Normal Sample.cat))) added))
     = [None; None; Some Sample.cat].
Proof.
  intros env added.
  assert (reachable Sample.start) as Hreach by apply reachable_init.
  split; [exact Hreach|].
  exact (proj1 (proj2 (proj2 (added_area_is_usable env Sample.start Sample.cat Hreach)))).
Defined.

(** *** What a combine request carries *)

Lemma filterNotNull_filter (slots : list (option ImageData)) :
  Some <$> filterNotNull slots = filter (fun slot => is_Some slot) slots.
Proof.
  induction slots as [|[img|] slots IH].
  - reflexivity.
  - simpl. rewrite filter_cons_True by (eexists; reflexivity). f_equal. exact IH.
  - simpl. rewrite filter_cons_False by (intros [x H]; discriminate H). exact IH.
Qed.

Lemma filterNotNull_length (slots : list (option ImageData)) :
  length (filterNotNull slots) <= length slots.
Proof. induction slots as [|[img|] slots IH]; simpl; lia. Qed.

(** X14.  The request of a combine call lists the populated slots and
    nothing else of the slot sequence: its parts are one inline part per
    populated slot, in slot order and with that image's own MIME type and
    bytes (empty slots are skipped), followed by one text part that holds
    the prompt; it asks for image and text in return. *)
Theorem combine_request_lists_populated_slots (prompt : string)
    (slots : list (option ImageData)) :
  let sent := filterNotNull slots in
  let request := generateContentRequest prompt sent in
  Some <$> sent = filter (fun slot => is_Some slot) slots
  /\ gc_parts request
     = map inlinePartOf sent ++ [ {| inlineData := None; text := Some prompt |} ]
  /\ (forall j image, sent !! j = Some image ->
      gc_parts request !! j = Some (inlinePartOf image))
  /\ gc_parts request !! length sent = Some {| inlineData := None; text := Some prompt |}
  /\ length (gc_parts request) = S (length sent)
  /\ length sent <= length slots
  /\ gc_responseModalities request = [IMAGE; TEXT].
Proof.
  cbv zeta. split; [apply filterNotNull_filter|]. split; [reflexivity|].
  split; [|split; [|split; [|split; [apply filterNotNull_length | reflexivity]]]].
  - intros j image Hj. simpl. apply lookup_app_l_Some.
    change (map inlinePartOf (filterNotNull slots))
      with (inlinePartOf <$> filterNotNull slots).
    rewrite list_lookup_fmap, Hj. reflexivity.
  - simpl. rewrite <- (length_map inlinePartOf (filterNotNull slots)).
    apply list_lookup_middle. reflexivity.
  - simpl. rewrite length_app, length_map. simpl. lia.
Qed.

(** *** The mode and its presentation *)

Lemma fileReceived_mode_view (k : nat) (file : option (Completion ImageData)) (st : State) :
  activeTab (final (fileReceived k file st)) = activeTab st
  /\ view (final (fileReceived k file st)) = view st.
Proof.
  unfold fileReceived, bind, gets, await, modify. simpl.
  destruct (uploadAreas st !! k) as [area|]; [|split; reflexivity].
  destruct file as [[imageData|e]|]; split; reflexivity.
Qed.

(** X15.  The presentation follows the mode.  A tab switch leaves exactly
    the panel and the label of its mode on show, whatever was switched to
    before (the last switch wins); and once the presentation agrees with the
    active mode, no event puts them out of step again. *)
Theorem view_follows_mode (env : Env) (ev : UiEvent) (st : State) :
  (forall tab, viewAgrees (switchTab tab st))
  /\ (forall tab tab', switchTab tab (switchTab tab' st) = switchTab tab st)
  /\ (viewAgrees st -> viewAgrees (final (dispatch env ev st)))
  /\ (viewAgrees st ->
      match activeTab st with
      | generate =>
          visible (panelGenerate_display (view st))
          /\ ~ visible (panelCombine_display (view st))
          /\ generateButton_textContent (view st) = "Generar"
      | combine =>
          visible (panelCombine_display (view st))
          /\ ~ visible (panelGenerate_display (view st))
          /\ generateButton_textContent (view st) = "Combinar"
      end).
Proof.
  split; [intros [|]; reflexivity|]. split; [intros [|] [|]; reflexivity|].
  assert (forall st', activeTab st' = activeTab st -> view st' = view st ->
                      viewAgrees st -> viewAgrees st') as Hsame.
  { unfold viewAgrees. intros st' Htab Hview H. rewrite Hview, H, Htab.
    destruct (activeTab st); reflexivity. }
  split.
  - intros Hagree. destruct ev; try (apply Hsame; [reflexivity..|exact Hagree]).
    + reflexivity.
    + reflexivity.
    + pose proof (kept_performGeneration sameInputs
                    (fun c st0 => ltac:(repeat split))
                    (fun o st0 => ltac:(repeat split))
                    setControlsDisabled_sameInputs env st)
        as (H1 & _ & _ & _ & H5 & _).
      apply Hsame; assumption.
    + destruct (fileReceived_mode_view k file st) as [H1 H2].
      apply Hsame; assumption.
    + simpl. unfold bind, modify.
      destruct (fileReceived_mode_view k file (alterArea (set_dragover false) k st))
        as [H1 H2].
      destruct (fileReceived k file (alterArea (set_dragover false) k st)) as [[c st'] t].
      apply Hsame; assumption.
  - unfold viewAgrees. intros ->. destruct (activeTab st); simpl;
      (split; [reflexivity|]); (split; [intros H; discriminate H | reflexivity]).
Qed.

(** An instance of X15: after a switch to combine mode and a rejected
    request, the combine panel is still the one on show. *)
Lemma view_follows_mode_witness :
  let env := Sample.failing (ErrorObject "503") None in
  let st := Sample.twoImages "merge these" in
  viewAgrees st
  /\ visible (panelCombine_display (view (final (dispatch env GenerateButtonClick st)))).
Proof.
  intros env st.
  assert (viewAgrees st) as Hagree by reflexivity.
  split; [exact Hagree|].
  pose proof (proj1 (proj2 (proj2 (view_follows_mode env GenerateButtonClick st))) Hagree)
    as Hafter.
  pose proof (proj2 (proj2 (proj2
    (view_follows_mode env TabCombineClick (final (dispatch env GenerateButtonClick st)))))
    Hafter) as Hshown.
  exact (proj1 Hshown).
Defined.

(** *** Which prompts pass the prompt check *)

Lemma rev_app_spec (s acc : string) : String.rev_app s acc = String.rev s +:+ acc.
Proof.
  revert acc. induction s as [|a s IH]; intros acc; [reflexivity|].
  unfold String.rev. simpl. rewrite (IH (String a acc)), (IH (String a EmptyString)).
  rewrite string_app_assoc. reflexivity.
Qed.

Lemma rev_String (a : ascii) (s : string) :
  String.rev (String a s) = String.rev s +:+ String a EmptyString.
Proof. unfold String.rev at 1. simpl. apply rev_app_spec. Qed.

Lemma rev_append (a b : string) : String.rev (a +:+ b) = String.rev b +:+ String.rev a.
Proof.
  induction a as [|x a IH].
  - rewrite app_empty. symmetry. apply string_app_empty_r.
  - rewrite app_String, !rev_String, IH, string_app_assoc. reflexivity.
Qed.

Lemma rev_involutive (s : string) : String.rev (String.rev s) = s.
Proof.
  induction s as [|a s IH]; [reflexivity|].
  rewrite rev_String, rev_append, IH. reflexivity.
Qed.

Lemma rev_empty_inv (s : string) : String.rev s = EmptyString -> s = EmptyString.
Proof.
  intros H. apply (f_equal String.rev) in H. rewrite rev_involutive in H. exact H.
Qed.

Lemma WhiteSpaceOnly_app (a b : string) :
  Js.WhiteSpaceOnly a -> Js.WhiteSpaceOnly b -> Js.WhiteSpaceOnly (a +:+ b).
Proof.
  intros Ha Hb. induction Ha as [|x s Hx _ IH|x y s Hxy _ IH|x y z s Hxyz _ IH].
  - exact Hb.
  - rewrite app_String. apply Js.wso_one; assumption.
  - rewrite !app_String. apply Js.wso_two; assumption.
  - rewrite !app_String. apply Js.wso_three; assumption.
Qed.

(** What [trimStart] removes is white space. *)
Lemma stripFront_prefix (n : nat) (s : string) :
  String.length s <= n ->
  exists p, Js.WhiteSpaceOnly p /\ s = p +:+ Js.stripFront false s.
Proof.
  revert s. induction n as [|n IH]; intros s Hlen.
  { destruct s; [|simpl in Hlen; lia]. exists EmptyString. split; [constructor|reflexivity]. }
  assert (forall t, exists p, Js.WhiteSpaceOnly p /\ t = p +:+ t) as Hkeep
    by (intros t; exists EmptyString; split; [constructor|reflexivity]).
  destruct s as [|a r1]; [apply Hkeep|]. cbn [Js.stripFront].
  destruct (Js.ws1 a) eqn:Ha.
  { destruct (IH r1) as (p & Hp & Hr1); [simpl in Hlen; lia|].
    exists (String a p). split; [apply Js.wso_one; assumption|].
    rewrite app_String, <- Hr1. reflexivity. }
  destruct r1 as [|b r2]; [apply Hkeep|].
  destruct (Js.ws2 a b) eqn:Hab.
  { destruct (IH r2) as (p & Hp & Hr2); [simpl in Hlen; lia|].
    exists (String a (String b p)). split; [apply Js.wso_two; assumption|].
    rewrite !app_String, <- Hr2. reflexivity. }
  destruct r2 as [|c r3]; [apply Hkeep|].
  destruct (Js.ws3 a b c) eqn:Habc; [|apply Hkeep].
  destruct (IH r3) as (p & Hp & Hr3); [simpl in Hlen; lia|].
  exists (String a (String b (String c p))). split; [apply Js.wso_three; assumption|].
  rewrite !app_String, <- Hr3. reflexivity.
Qed.

(** A reversed string that [trimEnd] empties was white space. *)
Lemma stripFront_backwards (n : nat) (s : string) :
  String.length s <= n ->
  Js.stripFront true s = EmptyString -> Js.WhiteSpaceOnly (String.rev s).
Proof.
  revert s. induction n as [|n IH]; intros s Hlen.
  { destruct s; [|simpl in Hlen; lia]. intros _. constructor. }
  destruct s as [|a r1]; [intros _; constructor|]. cbn [Js.stripFront].
  destruct (Js.ws1 a) eqn:Ha.
  { intros H. rewrite rev_String. apply WhiteSpaceOnly_app.
    - apply IH; [simpl in Hlen; lia | exact H].
    - apply Js.wso_one; [exact Ha | constructor]. }
  destruct r1 as [|b r2]; [intros H; discriminate H|].
  destruct (Js.ws2 b a) eqn:Hba.
  { intros H. rewrite !rev_String, string_app_assoc. apply WhiteSpaceOnly_app.
    - apply IH; [simpl in Hlen; lia | exact H].
    - apply Js.wso_two; [exact Hba | constructor]. }
  destruct r2 as [|c r3]; [intros H; discriminate H|].
  destruct (Js.ws3 c b a) eqn:Hcba; [|intros H; discriminate H].
  intros H. rewrite !rev_String, !string_app_assoc. apply WhiteSpaceOnly_app.
  - apply IH; [simpl in Hlen; lia | exact H].
  - apply Js.wso_three; [exact Hcba | constructor].
Qed.

(** [trim] leaves nothing exactly of the strings made of white space. *)
Lemma trim_empty_iff (s : string) :
  Js.trim s = EmptyString <-> Js.WhiteSpaceOnly s.
Proof.
  split; [|apply trim_WhiteSpaceOnly].
  unfold Js.trim, Js.trimEnd, Js.trimStart. intros H. apply rev_empty_inv in H.
  apply (stripFront_backwards _ _ (le_n _)) in H. rewrite rev_involutive in H.
  destruct (stripFront_prefix _ s (le_n _)) as (p & Hp & Hs).
  rewrite Hs. apply WhiteSpaceOnly_app; assumption.
Qed.

(** X16.  The prompt check stops exactly the prompts made of white space.
    With the credential present (and, in combine mode, two populated slots),
    a trigger makes no network call if and only if the prompt of the active
    mode is empty or holds nothing but white-space characters; a prompt with
    any other character in it is sent, trimmed. *)
Theorem prompt_check_is_exact (env : Env) (st : State) (apiKey : string) :
  truthy (API_KEY env) = Some apiKey ->
  (activeTab st = combine -> 2 <= populatedSlots st) ->
  let run := performGeneration env st in
  (Js.WhiteSpaceOnly (activePrompt st) <-> networkCalls (trace run) = [])
  /\ (~ Js.WhiteSpaceOnly (activePrompt st) ->
      networkCalls (trace run) = [networkCallOf st apiKey (Js.trim (activePrompt st))]).
Proof.
  intros Hkey Hslots. cbv zeta.
  destruct (networkCalls_of_trigger env st) as [Hstop Hgo].
  assert (~ Js.WhiteSpaceOnly (activePrompt st) -> ~ stopsBeforeRequest env st) as Hpass.
  { intros Hblank [H|[H|[Htab H]]].
    - congruence.
    - apply Hblank, trim_empty_iff, H.
    - specialize (Hslots Htab). lia. }
  assert (~ Js.WhiteSpaceOnly (activePrompt st) ->
          networkCalls (trace (performGeneration env st))
          = [networkCallOf st apiKey (Js.trim (activePrompt st))]) as Hsent.
  { intros Hblank. destruct (Hgo (Hpass Hblank)) as (apiKey' & Hkey' & ->).
    congruence. }
  split; [|exact Hsent]. split.
  - intros Hblank. apply Hstop. right. left. apply trim_empty_iff, Hblank.
  - intros Hnone. destruct (String.eqb (Js.trim (activePrompt st)) EmptyString) eqn:Htrim.
    + apply trim_empty_iff, String.eqb_eq, Htrim.
    + exfalso. apply String.eqb_neq in Htrim.
      assert (~ Js.WhiteSpaceOnly (activePrompt st)) as Hblank
        by (intros H; apply Htrim, trim_empty_iff, H).
      rewrite (Hsent Hblank) in Hnone. discriminate Hnone.
Qed.

(** An instance of X16: a prompt of one letter between blanks is sent as
    that letter. *)
Lemma prompt_check_is_exact_witness :
  let env := Sample.world (Some []) [] in
  let st := Sample.withPrompt " x " in
  networkCalls (trace (performGeneration env st))
  = [GenerateImagesCalled "k-123" (generateImagesRequest "x")].
Proof.
  intros env st.
  assert (activeTab st = combine -> 2 <= populatedSlots st) as Hslots
    by (intros H; discriminate H).
  assert (~ Js.WhiteSpaceOnly (activePrompt st)) as Hblank.
  { intros H. apply trim_empty_iff in H. vm_compute in H. discriminate H. }
  exact (proj2 (prompt_check_is_exact env st "k-123" eq_refl Hslots) Hblank).
Defined.

(** *** When the key-selection dialog is opened *)

Lemma classifyError_dialog (errorMessage : string) :
  (classifyError errorMessage).2 = true ->
  (classifyError errorMessage).1 = msgModelNotFound
  \/ (classifyError errorMessage).1 = msgInvalidKey.
Proof.
  unfold classifyError.
  destruct (Js.includes errorMessage "Requested entity was not found.");
    [left; reflexivity|].
  destruct (_ || _); [right; reflexivity | intros H; discriminate H].
Qed.

(** X17.  The host's key-selection dialog is opened only for a credential
    problem: whenever a trigger has invoked it, the status line shows the
    configuration-missing, the model-not-found or the invalid-credential
    message, and the trigger completes the way the dialog settled.  It is
    never opened after a success, a validation stop, or any other error. *)
Theorem dialog_only_for_credentials (env : Env) (st : State) :
  let run := performGeneration env st in
  In OpenSelectKeyCalled (trace run) ->
  (statusEl (final run) = errorStatus msgNoApiKey
   \/ statusEl (final run) = errorStatus msgModelNotFound
   \/ statusEl (final run) = errorStatus msgInvalidKey)
  /\ openSelectKey env = Some (completion run).
Proof.
  cbv zeta. rewrite performGeneration_unfold.
  destruct (truthy (API_KEY env)) as [apiKey|].
  - destruct (_ && _).
    { rewrite showStatusError_run. intros [H|[]]. discriminate H. }
    destruct (String.eqb _ _).
    { rewrite showStatusError_run. intros [H|[]]. discriminate H. }
    rewrite started_run. unfold trace at 1, final at 1 2 3, completion at 1.
    cbn [fst snd]. rewrite performRequest_run. cbv zeta.
    match goal with
    | |- context [tryBlock env apiKey ?p ?s] =>
        destruct (tryBlock_cases env apiKey p s) as [[url ->]|[e ->]]
    end.
    + unfold trace. cbn [fst snd]. intros [H|[H|[H|[]]]]; try discriminate H.
      unfold networkCallOf in H. simpl in H. destruct (activeTab st); discriminate H.
    + rewrite catchBlock_run. cbv zeta.
      pose proof (classifyError_dialog (errorMessageOf e)) as Hclass.
      destruct (classifyError (errorMessageOf e)) as [message [|]]; simpl in Hclass.
      * destruct (openSelectKey env) as [settles|]; unfold trace, final, completion;
          cbn [fst snd app].
        -- intros _. split; [|reflexivity]. right. simpl.
           destruct (Hclass eq_refl) as [->| ->]; [left|right]; reflexivity.
        -- intros [H|[H|[H|[H|[H|[]]]]]]; try discriminate H.
           unfold networkCallOf in H. simpl in H. destruct (activeTab st); discriminate H.
      * unfold trace. cbn [fst snd app]. intros [H|[H|[H|[H|[]]]]]; try discriminate H.
        unfold networkCallOf in H. simpl in H. destruct (activeTab st); discriminate H.
  - unfold bind. rewrite showStatusError_run, openApiKeyDialog_run.
    destruct (openSelectKey env) as [settles|]; unfold trace, final, completion; simpl.
    + intros _. split; [left; reflexivity | reflexivity].
    + intros [H|[H|[]]]; discriminate H.
Qed.

(** An instance of X17: the model is not found and the host has a
    dialog. *)
Lemma dialog_only_for_credentials_witness :
  let env := Sample.failing (ErrorObject "404 Requested entity was not found.")
               (Some (Normal tt)) in
  let run := performGeneration env (Sample.withPrompt "a red fox") in
  In OpenSelectKeyCalled (trace run)
  /\ openSelectKey env = Some (completion run).
Proof.
  intros env run.
  assert (In OpenSelectKeyCalled (trace run)) as Hin.
  { vm_compute. do 4 right. left. reflexivity. }
  split; [exact Hin|].
  exact (proj2 (dialog_only_for_credentials env (Sample.withPrompt "a red fox") Hin)).
Defined.
